(** * NachOS thread core: a shallow embedding of [threads/thread.cc]

    The development follows the C++ sources of the thread package
    ([code/threads/thread.cc], [code/threads/scheduler.h]).  Thread objects
    live in a heap indexed by their address, the globals of [system.h]
    ([currentThread], [threadToBeDestroyed], [scheduler], [interrupt]) are
    the fields of one [State] record, and every routine is a computation in
    a small state-and-outcome monad whose outcomes distinguish a normal
    return, a context switch, a machine halt, an endless idle wait, a failed
    [ASSERT] and an out-of-bounds or null access. *)

From stdpp Require Import gmap strings list.
From Stdlib Require Import ZArith Lia.

Local Open Scope Z_scope.

(** ** Machine integers *)

(** [int] is a 32-bit two's complement word on every host NachOS supports;
    arithmetic that leaves the range wraps around. *)
Definition wrap32 (z : Z) : Z := (z + 2 ^ 31) mod 2 ^ 32 - 2 ^ 31.

(** Conversion of an [int] to [unsigned int], as performed by a comparison
    of an [int] with an unsigned literal. *)
Definition to_unsigned (z : Z) : Z := z mod 2 ^ 32.

Definition INT_MAX : Z := 2 ^ 31 - 1.

(** [#define STACK_FENCEPOST 0xdeadbeef] *)
Definition STACK_FENCEPOST : Z := 0xdeadbeef.

(** ** C arrays *)

(** A fixed-size C array is a list; an access outside it is reported as
    [None] (undefined behaviour in the source). *)
Definition arr_get {A} (l : list A) (i : Z) : option A :=
  if bool_decide (0 <= i) then l !! Z.to_nat i else None.

Definition arr_set {A} (l : list A) (i : Z) (v : A) : option (list A) :=
  if bool_decide (0 <= i < Z.of_nat (length l))
  then Some (<[Z.to_nat i := v]> l) else None.

(** ** Hosts and the constants of the absent headers *)

Inductive Host := HOST_SNAKE | HOST_SPARC | HOST_MIPS | HOST_i386.

(** Direction in which the execution stack grows (comments in
    [CreateThreadStack]: "HP stack works from low addresses to high
    addresses", "i386 & MIPS & SPARC stack works from high addresses to low
    addresses"). *)
Inductive Growth := GrowsUp | GrowsDown.

Definition growth (h : Host) : Growth :=
  match h with HOST_SNAKE => GrowsUp | _ => GrowsDown end.

(** The constants of [thread.h] and [switch.h], the addresses of the three
    routines stored in a fresh context, and the words found in a freshly
    allocated block are not part of the sources at hand; they are the
    parameters of the development. *)
Class Platform := {
  host : Host;
  StackSize : Z;                 (* thread.h, in words *)
  MAXCHILDCOUNT : Z;             (* thread.h *)
  MachineStateSize : Z;          (* thread.h *)
  PCState : Z;                   (* switch.h *)
  StartupPCState : Z;
  InitialPCState : Z;
  InitialArgState : Z;
  WhenDonePCState : Z;
  ThreadRoot_entry : Z;          (* (int) _ThreadRoot *)
  InterruptEnable_entry : Z;     (* (int) InterruptEnable *)
  ThreadFinish_entry : Z;        (* (int) ThreadFinish *)
  AllocBoundedArray : Z → list Z; (* words of a fresh block of that many bytes *)
  uninitialised : Z → list Z     (* that many words of a fresh object *)
}.

Definition sizeof_int : Z := 4.

(** ** Threads *)

Abbreviation addr := positive.

Inductive ThreadStatus := JUST_CREATED | RUNNING | READY | BLOCKED.
Inductive IntStatus := IntOff | IntOn.

Global Instance ThreadStatus_eq_dec : EqDecision ThreadStatus.
Proof. solve_decision. Defined.
Global Instance IntStatus_eq_dec : EqDecision IntStatus.
Proof. solve_decision. Defined.
Global Instance Host_eq_dec : EqDecision Host.
Proof. solve_decision. Defined.

(** The fields of [class NachOSThread] that [thread.cc] reads or writes.
    [stack] is [None] for a null pointer and otherwise holds the words of
    the block; [stackTop] is an offset, in words, into that block. *)
Record NachOSThread := mkThread {
  name : string;
  stackTop : option Z;
  stack : option (list Z);
  machineState : list Z;
  status : ThreadStatus;
  pid : Z;
  ppid : Z;
  parentthread : option addr;
  space : option Z;
  stateRestored : bool;
  instructionCount : Z;
  childCount : Z;
  waitchildindex : Z;
  child_pids : list Z;
  childexitcode : list Z;
  childexitstatus : list bool
}.

Definition set_status (s : ThreadStatus) (t : NachOSThread) : NachOSThread :=
  mkThread (name t) (stackTop t) (stack t) (machineState t) s (pid t) (ppid t)
    (parentthread t) (space t) (stateRestored t) (instructionCount t)
    (childCount t) (waitchildindex t) (child_pids t) (childexitcode t)
    (childexitstatus t).

Definition set_stateRestored (b : bool) (t : NachOSThread) : NachOSThread :=
  mkThread (name t) (stackTop t) (stack t) (machineState t) (status t) (pid t)
    (ppid t) (parentthread t) (space t) b (instructionCount t)
    (childCount t) (waitchildindex t) (child_pids t) (childexitcode t)
    (childexitstatus t).

Definition set_waitchildindex (w : Z) (t : NachOSThread) : NachOSThread :=
  mkThread (name t) (stackTop t) (stack t) (machineState t) (status t) (pid t)
    (ppid t) (parentthread t) (space t) (stateRestored t) (instructionCount t)
    (childCount t) w (child_pids t) (childexitcode t) (childexitstatus t).

Definition set_childexitcode (c : list Z) (t : NachOSThread) : NachOSThread :=
  mkThread (name t) (stackTop t) (stack t) (machineState t) (status t) (pid t)
    (ppid t) (parentthread t) (space t) (stateRestored t) (instructionCount t)
    (childCount t) (waitchildindex t) (child_pids t) c (childexitstatus t).

Definition set_childexitstatus (c : list bool) (t : NachOSThread) : NachOSThread :=
  mkThread (name t) (stackTop t) (stack t) (machineState t) (status t) (pid t)
    (ppid t) (parentthread t) (space t) (stateRestored t) (instructionCount t)
    (childCount t) (waitchildindex t) (child_pids t) (childexitcode t) c.

Definition set_stack (top : option Z) (s : option (list Z)) (t : NachOSThread)
  : NachOSThread :=
  mkThread (name t) top s (machineState t) (status t) (pid t)
    (ppid t) (parentthread t) (space t) (stateRestored t) (instructionCount t)
    (childCount t) (waitchildindex t) (child_pids t) (childexitcode t)
    (childexitstatus t).

Definition set_machineState (m : list Z) (t : NachOSThread) : NachOSThread :=
  mkThread (name t) (stackTop t) (stack t) m (status t) (pid t)
    (ppid t) (parentthread t) (space t) (stateRestored t) (instructionCount t)
    (childCount t) (waitchildindex t) (child_pids t) (childexitcode t)
    (childexitstatus t).

(** ** Global state *)

(** [threads] is the heap of thread objects.  [listOfReadyThreads] is the
    scheduler's ready list, [intLevel] the interrupt level held by
    [interrupt], and [pendingWakes] the external events still to come: each
    one lists the threads its handler makes ready. *)
Record State := mkState {
  threads : gmap addr NachOSThread;
  currentThread : option addr;
  threadToBeDestroyed : option addr;
  availpid : Z;
  listOfReadyThreads : list addr;
  intLevel : IntStatus;
  pendingWakes : list (list addr)
}.

Definition set_threads (h : gmap addr NachOSThread) (st : State) : State :=
  mkState h (currentThread st) (threadToBeDestroyed st) (availpid st)
    (listOfReadyThreads st) (intLevel st) (pendingWakes st).

Definition set_currentThread (c : option addr) (st : State) : State :=
  mkState (threads st) c (threadToBeDestroyed st) (availpid st)
    (listOfReadyThreads st) (intLevel st) (pendingWakes st).

Definition set_threadToBeDestroyed (c : option addr) (st : State) : State :=
  mkState (threads st) (currentThread st) c (availpid st)
    (listOfReadyThreads st) (intLevel st) (pendingWakes st).

Definition set_availpid (p : Z) (st : State) : State :=
  mkState (threads st) (currentThread st) (threadToBeDestroyed st) p
    (listOfReadyThreads st) (intLevel st) (pendingWakes st).

Definition set_ready (q : list addr) (st : State) : State :=
  mkState (threads st) (currentThread st) (threadToBeDestroyed st)
    (availpid st) q (intLevel st) (pendingWakes st).

Definition set_intLevel (l : IntStatus) (st : State) : State :=
  mkState (threads st) (currentThread st) (threadToBeDestroyed st)
    (availpid st) (listOfReadyThreads st) l (pendingWakes st).

Definition set_pendingWakes (p : list (list addr)) (st : State) : State :=
  mkState (threads st) (currentThread st) (threadToBeDestroyed st)
    (availpid st) (listOfReadyThreads st) (intLevel st) p.

(** State in which NachOS starts: no thread object yet, [availpid = 1]. *)
Definition boot (events : list (list addr)) : State :=
  mkState ∅ None None 1 [] IntOff events.

(** ** Outcomes *)

(** What a thread that gave up the CPU inside one of the routines still has
    to run when it is switched back in, with the locals it keeps on its
    stack. *)
Inductive Kont :=
| KSchedule
| KSleep
| KYield (oldLevel : IntStatus)
| KJoin (index : Z) (oldLevel : IntStatus)
| KFinish.

Inductive Outcome (A : Type) :=
| Returned (a : A) (st : State)    (* the routine returned to its caller *)
| Switched (k : Kont) (st : State) (* SWITCH: [currentThread st] now runs *)
| Halted (st : State)              (* interrupt->Halt() *)
| Deadlock (st : State)            (* idle wait with no event to come *)
| AssertFailed                     (* a failed ASSERT aborts NachOS *)
| Fault.                           (* null or out-of-bounds access *)

Arguments Returned {A} a st.
Arguments Switched {A} k st.
Arguments Halted {A} st.
Arguments Deadlock {A} st.
Arguments AssertFailed {A}.
Arguments Fault {A}.

Definition M (A : Type) : Type := State → Outcome A.

Global Instance M_ret : MRet M := fun A a st => Returned a st.

Global Instance M_bind : MBind M := fun A B f m st =>
  match m st with
  | Returned a st' => f a st'
  | Switched k st' => Switched k st'
  | Halted st' => Halted st'
  | Deadlock st' => Deadlock st'
  | AssertFailed => AssertFailed
  | Fault => Fault
  end.

Definition get : M State := fun st => Returned st st.
Definition modify (f : State → State) : M unit := fun st => Returned tt (f st).
Definition fault {A} : M A := fun _ => Fault.
Definition of_option {A} (o : option A) : M A :=
  match o with Some a => mret a | None => fault end.

(** Read and write of the object a thread pointer refers to. *)
Definition deref (p : option addr) : M NachOSThread := fun st =>
  match p with
  | None => Fault
  | Some a => match threads st !! a with
              | Some t => Returned t st
              | None => Fault
              end
  end.

Definition update (a : addr) (f : NachOSThread → NachOSThread) : M unit :=
  t ← deref (Some a);
  modify (fun st => set_threads (<[a := f t]> (threads st)) st).

(** Relabels a context switch with the frame of the routine in which it
    happened. *)
Definition in_frame {A} (k : Kont) (m : M A) : M A := fun st =>
  match m st with
  | Switched _ st' => Switched k st'
  | o => o
  end.

(** ** The interrupt object *)

(** Modelled from the spec: [interrupt.cc] is not among the sources.  The
    spec (section 6) gives the preemption control as a [disable()] /
    [restore(level)] bracket: [SetLevel] installs the level and hands back
    the previous one. *)
Definition SetLevel (now : IntStatus) : M IntStatus := fun st =>
  Returned (intLevel st) (set_intLevel now st).

(** Modelled from the spec: [interrupt.cc] is not among the sources;
    [getLevel] reads the level that [SetLevel] installs. *)
Definition getLevel : M IntStatus := fun st => Returned (intLevel st) st.

(** Modelled from the spec: [halt()] "terminate[s] the whole system"; it
    does not return. *)
Definition Halt {A} : M A := fun st => Halted st.

(** Modelled from the spec: [utility.h] is not among the sources.  A
    violated [ASSERT] is fatal: it "terminate[s] the whole system
    immediately rather than return an error" (section 7). *)
Definition ASSERT (c : bool) : M unit := fun st =>
  if c then Returned tt st else AssertFailed.

(** ** The scheduler *)

(** Modelled from the spec: [scheduler.cc] is not among the sources, only
    the declarations of [scheduler.h].  [enqueueReady]: "appends to the
    ready queue tail, sets status Ready". *)
Definition MoveThreadToReadyQueue (thread : option addr) : M unit :=
  match thread with
  | Some a =>
      update a (set_status READY);;
      modify (fun st => set_ready (listOfReadyThreads st ++ [a]) st)
  | None => fault
  end.

(** Modelled from the spec: [dequeueReady]: "removes and returns the head of
    the ready queue, or none if empty". *)
Definition SelectNextReadyThread : M (option addr) := fun st =>
  match listOfReadyThreads st with
  | [] => Returned None st
  | a :: q => Returned (Some a) (set_ready q st)
  end.

(** Modelled from the spec: [interrupt.cc] is not among the sources.  An
    external event "makes a thread ready": its handler puts the threads it
    wakes on the ready queue, one after the other. *)
Fixpoint wake_all (ws : list addr) : M unit :=
  match ws with
  | [] => mret tt
  | a :: ws' => MoveThreadToReadyQueue (Some a);; wake_all ws'
  end.

(** A wait that never ends. *)
Definition deadlock {A} : M A := fun st => Deadlock st.

(** Modelled from the spec: [interrupt.cc] is not among the sources.
    [idleWait()] is "invoked when no thread is ready, blocking until an
    external event exists"; it comes back once the next event has run.
    Without any event to come the wait never ends. *)
Definition Idle : M unit := fun st =>
  match pendingWakes st with
  | [] => Deadlock st
  | ev :: rest => wake_all ev (set_pendingWakes rest st)
  end.

(** ** [thread.cc] *)

(** [NachOSThread::SaveUserState] and [NachOSThread::RestoreUserState]; the
    registers of the simulated machine are outside the model, the
    [stateRestored] flag is kept. *)
Definition SaveUserState (this : addr) : M unit :=
  t ← deref (Some this);
  if stateRestored t then update this (set_stateRestored false) else mret tt.

Definition RestoreUserState (this : addr) : M unit :=
  update this (set_stateRestored true).

(** [NachOSThread::~NachOSThread]: the destructor proper. *)
Definition NachOSThread_dtor (this : addr) : M unit :=
  st ← get;
  ASSERT (bool_decide (Some this ≠ currentThread st));;
  t ← deref (Some this);
  match stack t with
  | Some _ => update this (set_stack (stackTop t) None)
  | None => mret tt
  end.

(** [delete p]: nothing for a null pointer, otherwise the destructor runs
    and the object leaves the heap. *)
Definition delete_thread (p : option addr) : M unit :=
  match p with
  | None => mret tt
  | Some a =>
      NachOSThread_dtor a;;
      modify (fun st => set_threads (delete a (threads st)) st)
  end.

(** Modelled from the spec: the assembly routine [SWITCH] is not among the
    sources; it is "the low-level switch primitive" that transfers
    control, so the calling thread stops here. *)
Definition SWITCH : M unit := fun st => Switched KSchedule st.

(** Modelled from the spec: [switchTo(next)] "saves the outgoing thread's
    context [...], sets the incoming thread's status Running, updates the
    current thread pointer, and restores the incoming thread's context".
    The user registers of a thread that owns an address space are saved on
    the way out (section 6).  The outcome is the switch itself. *)
Definition ScheduleThread (nextThread : addr) : M unit :=
  st ← get;
  old ← deref (currentThread st);
  match currentThread st, space old with
  | Some o, Some _ => SaveUserState o
  | _, _ => mret tt
  end;;
  modify (set_currentThread (Some nextThread));;
  update nextThread (set_status RUNNING);;
  SWITCH.

(** Modelled from the spec: what [switchTo] does "on return from this
    call", in the thread that has just been switched back in: "if a
    previous thread is pending destruction, destroy it now [...] and clear
    the pending slot; if the current thread owns process/address-space
    state, restore that state". *)
Definition ScheduleThread_resume : M unit :=
  st ← get;
  match threadToBeDestroyed st with
  | Some z =>
      delete_thread (Some z);;
      modify (set_threadToBeDestroyed None)
  | None => mret tt
  end;;
  cur ← deref (currentThread st);
  match currentThread st, space cur with
  | Some c, Some _ => RestoreUserState c
  | _, _ => mret tt
  end.

Section Threads.
Context `{Platform}.

(** [NachOSThread::NachOSThread], built with [USER_PROGRAM]; [this] is the
    address handed out by [new].  [machineState], [child_pids] and
    [childexitcode] are left as allocated. *)
Definition NachOSThread_ctor (this : addr) (threadName : string) : M unit :=
  st ← get;
  let pid_ := availpid st in
  modify (set_availpid (wrap32 (availpid st + 1)));;
  rel ← (if bool_decide (pid_ = 1) then mret (0, None)
         else cur ← deref (currentThread st);
              mret (pid cur, currentThread st));
  modify (fun st' => set_threads
    (<[this := mkThread threadName None None
                 (uninitialised MachineStateSize) JUST_CREATED
                 pid_ rel.1 rel.2 None true 0 0 (-1)
                 (uninitialised MAXCHILDCOUNT) (uninitialised MAXCHILDCOUNT)
                 (replicate (Z.to_nat MAXCHILDCOUNT) false)]> (threads st'))
    st').

Definition GetPID (this : addr) : M Z :=
  t ← deref (Some this); mret (pid t).

Definition GetPPID (this : addr) : M Z :=
  t ← deref (Some this); mret (ppid t).

(** [stack[i] = v] and [machineState[i] = v] on the object at [this]. *)
Definition store_stack (this : addr) (i v : Z) : M unit :=
  t ← deref (Some this);
  s ← of_option (stack t);
  s' ← of_option (arr_set s i v);
  update this (set_stack (stackTop t) (Some s')).

Definition store_machineState (this : addr) (i v : Z) : M unit :=
  t ← deref (Some this);
  m ← of_option (arr_set (machineState t) i v);
  update this (set_machineState m).

Definition set_stackTop (this : addr) (top : Z) : M unit :=
  t ← deref (Some this);
  update this (set_stack (Some top) (stack t)).

(** Index of the word that carries the fencepost. *)
Definition fencepost_index : Z :=
  match host with HOST_SNAKE => StackSize - 1 | _ => 0 end.

(** [NachOSThread::CreateThreadStack] *)
Definition CreateThreadStack (this : addr) (func arg : Z) : M unit :=
  t ← deref (Some this);
  update this
    (set_stack (stackTop t) (Some (AllocBoundedArray (StackSize * sizeof_int))));;
  match host with
  | HOST_SNAKE =>
      set_stackTop this 16;;
      store_stack this (StackSize - 1) (wrap32 STACK_FENCEPOST)
  | HOST_SPARC =>
      set_stackTop this (StackSize - 96);;
      store_stack this 0 (wrap32 STACK_FENCEPOST)
  | HOST_MIPS =>
      set_stackTop this (StackSize - 4);;
      store_stack this 0 (wrap32 STACK_FENCEPOST)
  | HOST_i386 =>
      set_stackTop this (StackSize - 4);;
      set_stackTop this (StackSize - 4 - 1);;
      store_stack this (StackSize - 4 - 1) ThreadRoot_entry;;
      store_stack this 0 (wrap32 STACK_FENCEPOST)
  end;;
  store_machineState this PCState ThreadRoot_entry;;
  store_machineState this StartupPCState InterruptEnable_entry;;
  store_machineState this InitialPCState func;;
  store_machineState this InitialArgState arg;;
  store_machineState this WhenDonePCState ThreadFinish_entry.

(** [NachOSThread::CheckOverflow] *)
Definition CheckOverflow (this : addr) : M unit :=
  t ← deref (Some this);
  match stack t with
  | None => mret tt
  | Some s =>
      w ← of_option (arr_get s fencepost_index);
      ASSERT (bool_decide (to_unsigned w = STACK_FENCEPOST))
  end.

(** [NachOSThread::ThreadFork] *)
Definition ThreadFork (this : addr) (func arg : Z) : M unit :=
  CreateThreadStack this func arg;;
  oldLevel ← SetLevel IntOff;
  MoveThreadToReadyQueue (Some this);;
  SetLevel oldLevel;;
  mret tt.

(** The [while] loop of [PutThreadToSleep].  Every turn that finds the ready
    list empty consumes one pending event, so [n], the number of events
    still to come, bounds the turns; once none is left the idle wait never
    ends. *)
Fixpoint sleep_loop (n : nat) : M addr :=
  nextThread ← SelectNextReadyThread;
  match nextThread with
  | Some t => mret t
  | None =>
      Idle;;
      match n with
      | O => deadlock
      | S n' => sleep_loop n'
      end
  end.

(** [NachOSThread::PutThreadToSleep] *)
Definition PutThreadToSleep (this : addr) : M unit :=
  st ← get;
  ASSERT (bool_decide (currentThread st = Some this));;
  level ← getLevel;
  ASSERT (bool_decide (level = IntOff));;
  update this (set_status BLOCKED);;
  nextThread ← sleep_loop (length (pendingWakes st));
  in_frame KSleep (ScheduleThread nextThread).

(** The rest of [PutThreadToSleep] once the sleeper is switched back in:
    [ScheduleThread] returns, then [PutThreadToSleep] does. *)
Definition PutThreadToSleep_resume : M unit := ScheduleThread_resume.



(** [NachOSThread::FinishThread] *)
Definition FinishThread (this : addr) : M unit :=
  SetLevel IntOff;;
  st ← get;
  ASSERT (bool_decide (currentThread st = Some this));;
  t ← deref (Some this);
  exited ← of_option (arr_get (childexitstatus t) (pid t));
  (if exited : bool then
     match parentthread t with None => Halt | Some _ => mret tt end;;
     MoveThreadToReadyQueue (parentthread t)
   else mret tt);;
  modify (fun st' => set_threadToBeDestroyed (currentThread st') st');;
  t' ← deref (Some this);
  (if bool_decide (childCount t' = 0) then Halt else mret tt);;
  in_frame KFinish (PutThreadToSleep this).

(** [NachOSThread::SearchChildpid]: the [for] loop, [n] turns from slot
    [i]. *)
Fixpoint SearchChildpid_from (pids : list Z) (a i : Z) (n : nat) : option Z :=
  match n with
  | O => Some (-1)
  | S n' =>
      match arr_get pids i with
      | None => None
      | Some p =>
          if bool_decide (p = a) then Some i
          else SearchChildpid_from pids a (i + 1) n'
      end
  end.

Definition SearchChildpid (this : addr) (a : Z) : M Z :=
  t ← deref (Some this);
  of_option (SearchChildpid_from (child_pids t) a 0 (Z.to_nat (childCount t))).

(** [NachOSThread::SetChildExitCode] *)
Definition SetChildExitCode (this : addr) (childpid code : Z) : M unit :=
  i ← SearchChildpid this childpid;
  t ← deref (Some this);
  codes ← of_option (arr_set (childexitcode t) i code);
  update this (set_childexitcode codes);;
  flags ← of_option (arr_set (childexitstatus t) i true);
  update this (set_childexitstatus flags);;
  if bool_decide (waitchildindex t = i) then
    update this (set_waitchildindex (-1));;
    oldLevel ← SetLevel IntOff;
    MoveThreadToReadyQueue (Some this);;
    SetLevel oldLevel;;
    mret tt
  else mret tt.

(** [NachOSThread::JoinThreadWithChild] *)
Definition JoinThreadWithChild (this : addr) (index : Z) : M Z :=
  t ← deref (Some this);
  exited ← of_option (arr_get (childexitstatus t) index);
  (if negb exited then
     update this (set_waitchildindex index);;
     oldLevel ← SetLevel IntOff;
     in_frame (KJoin index oldLevel) (PutThreadToSleep this);;
     SetLevel oldLevel;;
     mret tt
   else mret tt);;
  t' ← deref (Some this);
  of_option (arr_get (childexitcode t') index).

(** The rest of [JoinThreadWithChild] once the joining thread is switched
    back in. *)
Definition JoinThreadWithChild_resume (this : addr) (index : Z)
    (oldLevel : IntStatus) : M Z :=
  PutThreadToSleep_resume;;
  SetLevel oldLevel;;
  t' ← deref (Some this);
  of_option (arr_get (childexitcode t') index).

End Threads.

(** ** The child table *)

(** [first_slot pids n a i]: [i] is the first of the slots [0 .. n-1] of
    [pids] that holds [a]. *)
Definition first_slot (pids : list Z) (n a i : Z) : Prop :=
  0 ≤ i < n ∧ arr_get pids i = Some a ∧
  ∀ j, 0 ≤ j < i → arr_get pids j ≠ Some a.

(** [a] is in none of the slots [0 .. n-1]. *)
Definition no_slot (pids : list Z) (n a : Z) : Prop :=
  ∀ j, 0 ≤ j < n → arr_get pids j ≠ Some a.

(** The three child arrays have one capacity and [childCount] is within
    it. *)
Definition child_table_ok (t : NachOSThread) : Prop :=
  0 ≤ childCount t ≤ Z.of_nat (length (child_pids t)) ∧
  length (childexitcode t) = length (child_pids t) ∧
  length (childexitstatus t) = length (child_pids t).

(** ** What the scheduler may change *)

(** [t'] is [t] up to the two fields the scheduler and the switch code
    write: [status] and [stateRestored]. *)
Definition sched_related (t t' : NachOSThread) : Prop :=
  t' = set_stateRestored (stateRestored t') (set_status (status t') t).


(** Every pointer in [l] refers to a live thread object. *)
Definition all_alive (h : gmap addr NachOSThread) (l : list addr) : Prop :=
  Forall (fun a => is_Some (h !! a)) l.

(** The thread pending destruction, if any, is a live object other than
    the thread [c]. *)
Definition zombie_ok (st : State) (c : addr) : Prop :=
  match threadToBeDestroyed st with
  | None => True
  | Some z => z ≠ c ∧ is_Some (threads st !! z)
  end.

(** ** The two ends of an execution stack *)

Section StackEnds.
Context `{Platform}.

(** The word the stack reaches last when it grows: the end of the block in
    the direction of growth. *)
Definition overflow_end : Z :=
  match growth host with GrowsUp => StackSize - 1 | GrowsDown => 0 end.

(** The word at the end the stack starts from: the end of the block
    opposite to the direction of growth. *)
Definition base_end : Z :=
  match growth host with GrowsUp => 0 | GrowsDown => StackSize - 1 end.

(** The five slots of [machineState] that [CreateThreadStack] fills. *)
Definition context_slots : list Z :=
  [PCState; StartupPCState; InitialPCState; InitialArgState; WhenDonePCState].

(** What the platform has to provide for [CreateThreadStack]: a block of
    [StackSize] words, at least five of them, and five distinct slots. *)
Definition platform_ok : Prop :=
  5 ≤ StackSize ∧
  length (AllocBoundedArray (StackSize * sizeof_int)) = Z.to_nat StackSize ∧
  NoDup context_slots.

End StackEnds.

(** ** Sequences of operations *)

(** One construction: the value of [currentThread] when [new] runs, the
    address of the new object and its name. *)
Record Construction := mkConstruction {
  c_current : option addr;
  c_this : addr;
  c_name : string
}.

(** What one construction leaves to observe: the new object as its
    constructor returned it, and the object [currentThread] pointed to at
    that moment, if any. *)
Record Constructed := mkConstructed {
  made : NachOSThread;
  current_then : option NachOSThread
}.

(** Consecutive constructions; the scheduler may have changed
    [currentThread] in between. *)
Fixpoint construct_all `{Platform} (cs : list Construction)
    : M (list Constructed) :=
  match cs with
  | [] => mret []
  | c :: cs' =>
      modify (set_currentThread (c_current c));;
      st ← get;
      NachOSThread_ctor (c_this c) (c_name c);;
      t ← deref (Some (c_this c));
      rs ← construct_all cs';
      mret (mkConstructed t (c_current c ≫= fun a => threads st !! a) :: rs)
  end.

(** The current-thread pointers of [cs] refer to objects alive at their
    time: [live] holds the addresses allocated so far, [first] tells
    whether the next constructor is the one that takes pid 1 and does not
    look at [currentThread]. *)
Fixpoint currents_alive (live : gset addr) (first : bool)
    (cs : list Construction) : Prop :=
  match cs with
  | [] => True
  | c :: cs' =>
      (first = false → ∃ a, c_current c = Some a ∧ a ∈ live) ∧
      currents_alive (live ∪ {[c_this c]}) false cs'
  end.

(** Operations on the ready queue. *)
Inductive QueueOp := Enqueue (t : addr) | Dequeue.

(** Runs the operations in order and collects what each [Dequeue]
    returned. *)
Fixpoint run_queue (ops : list QueueOp) : M (list (option addr)) :=
  match ops with
  | [] => mret []
  | Enqueue t :: ops' => MoveThreadToReadyQueue (Some t);; run_queue ops'
  | Dequeue :: ops' =>
      r ← SelectNextReadyThread;
      rs ← run_queue ops';
      mret (r :: rs)
  end.

Definition enqueued (ops : list QueueOp) : list addr :=
  omap (fun o => match o with Enqueue t => Some t | Dequeue => None end) ops.

Definition dequeue_calls (ops : list QueueOp) : nat :=
  length (omap (fun o => match o with Dequeue => Some tt | _ => None end) ops).

(** The threads handed out by the dequeues, in order; a dequeue that found
    the queue empty contributes nothing. *)
Definition dequeued (rs : list (option addr)) : list addr := omap id rs.

(** How many of the first [n] dequeue calls handed out a thread. *)
Definition handed_out (n : nat) (rs : list (option addr)) : nat :=
  length (dequeued (take n rs)).

(** ** Example platform and states *)

Module Demo.

Definition mips : Platform :=
  Build_Platform HOST_MIPS 1024 32 18 9 2 4 5 6 4096 8192 12288
    (fun n => replicate (Z.to_nat (n / 4)) 0)
    (fun n => replicate (Z.to_nat n) 0).

Definition snake : Platform :=
  Build_Platform HOST_SNAKE 1024 32 18 9 2 4 5 6 4096 8192 12288
    (fun n => replicate (Z.to_nat (n / 4)) 0)
    (fun n => replicate (Z.to_nat n) 0).

(** A thread object as the constructor leaves it, with the given
    identifiers and status. *)
Definition thread (n : string) (p pp : Z) (parent : option addr)
    (s : ThreadStatus) : NachOSThread :=
  mkThread n None None (replicate 18 0) s p pp parent None true 0 0 (-1)
    (replicate 32 0) (replicate 32 0) (replicate 32 false).

(** The root thread after it forked one child (pid 2, slot 0). *)
Definition root_with_child : NachOSThread :=
  mkThread "main" None None (replicate 18 0) RUNNING 1 0 None None true 0
    1 (-1) (<[0%nat := 2]> (replicate 32 0)) (replicate 32 0)
    (replicate 32 false).

(** Root thread (address 1) running, its child (address 2) ready. *)
Definition two_threads : State :=
  mkState (<[1%positive := root_with_child]>
            (<[2%positive := thread "child" 2 1 (Some 1%positive) READY]> ∅))
    (Some 1%positive) None 3 [2%positive] IntOn [].

(** The same, with nothing ready and no event to come. *)
Definition root_alone : State :=
  mkState (<[1%positive := root_with_child]>
            (<[2%positive := thread "child" 2 1 (Some 1%positive) BLOCKED]> ∅))
    (Some 1%positive) None 3 [] IntOff [].


End Demo.

(** ** Further routines of [thread.cc] *)

(** [context(int arg)] up to its last statement, [machine->Run()], which
    hands the CPU to the user program and is outside the model.  The
    address-space call [RestoreContextOnSwitch] is outside it as well. *)
Definition context_before_Run : M unit :=
  st ← get;
  match threadToBeDestroyed st with
  | Some z =>
      delete_thread (Some z);;
      modify (set_threadToBeDestroyed None)
  | None => mret tt
  end;;
  cur ← deref (currentThread st);
  match currentThread st, space cur with
  | Some c, Some _ => RestoreUserState c
  | _, _ => mret tt
  end.

(** *** The user registers *)

(** The two members of [NachOSThread] that [SaveUserState] and
    [RestoreUserState] work on, next to the register file of the simulated
    machine, a list of words. *)
Record UserRegs := mkUserRegs {
  userRegisters : list Z;
  restored : bool
}.

(** The [for] loop shared by both routines: [dst[i] = src[i]] for [n]
    turns from index [i].  [machine->ReadRegister] and
    [machine->WriteRegister] ([machine.cc] is not among the sources) are
    taken as plain reads and writes of the register file. *)
Fixpoint copy_registers (src dst : list Z) (i : Z) (n : nat)
    : option (list Z) :=
  match n with
  | O => Some dst
  | S n' =>
      match arr_get src i with
      | None => None
      | Some r =>
          match arr_set dst i r with
          | None => None
          | Some dst' => copy_registers src dst' (i + 1) n'
          end
      end
  end.

(** [NachOSThread::SaveUserState], registers included; [NumTotalRegs]
    comes from [machine.h]. *)
Definition SaveUserState_registers (NumTotalRegs : Z) (machine : list Z)
    (u : UserRegs) : option UserRegs :=
  if restored u then
    match copy_registers machine (userRegisters u) 0 (Z.to_nat NumTotalRegs) with
    | Some regs => Some (mkUserRegs regs false)
    | None => None
    end
  else Some u.

(** [NachOSThread::RestoreUserState], registers included: the new register
    file and the thread's members. *)
Definition RestoreUserState_registers (NumTotalRegs : Z) (machine : list Z)
    (u : UserRegs) : option (list Z * UserRegs) :=
  match copy_registers (userRegisters u) machine 0 (Z.to_nat NumTotalRegs) with
  | Some machine' => Some (machine', mkUserRegs (userRegisters u) true)
  | None => None
  end.

(** ** Scheduling rounds and the scheduler invariant *)



(** The running thread is the current one and the only one marked
    [RUNNING]; the ready queue holds live threads marked [READY], each
    once. *)
Definition sched_inv (st : State) : Prop :=
  (∃ c tc, currentThread st = Some c ∧ threads st !! c = Some tc ∧
           status tc = RUNNING) ∧
  (∀ a ta, threads st !! a = Some ta → status ta = RUNNING →
     currentThread st = Some a) ∧
  NoDup (listOfReadyThreads st) ∧
  (∀ a, a ∈ listOfReadyThreads st →
     ∃ ta, threads st !! a = Some ta ∧ status ta = READY).

(** A computation that, when it returns, has changed nothing but thread
    objects. *)
Definition heap_only {A} (m : M A) : Prop :=
  ∀ st a st', m st = Returned a st' → st' = set_threads (threads st') st.

(** ** A further example state *)

Module Sample.

(** Root thread (address 1) running, its child (address 2) ready, and a
    thread just constructed (address 3). *)
Definition with_new_thread : State :=
  mkState (<[1%positive := Demo.root_with_child]>
            (<[2%positive := Demo.thread "child" 2 1 (Some 1%positive) READY]>
               (<[3%positive :=
                    Demo.thread "new" 3 1 (Some 1%positive) JUST_CREATED]> ∅)))
    (Some 1%positive) None 4 [2%positive] IntOn [].


(** The root thread switched back in while it joins its child (slot 0),
    whose exit is not recorded. *)
Definition root_resumed : State :=
  mkState (<[1%positive := set_waitchildindex 0 Demo.root_with_child]>
            (<[2%positive := Demo.thread "child" 2 1 (Some 1%positive) READY]> ∅))
    (Some 1%positive) None 3 [2%positive] IntOff [].


End Sample.

(** * Properties *)

(** ** Running the primitives *)

Ltac unfold_monad :=
  unfold mbind, M_bind, mret, M_ret, get, modify, fault, of_option,
    ASSERT, getLevel, SetLevel, Halt, deadlock, SWITCH, in_frame.

Lemma bind_run {A B} (m : M A) (f : A → M B) st :
  (m ≫= f) st =
  match m st with
  | Returned a st' => f a st'
  | Switched k st' => Switched k st'
  | Halted st' => Halted st'
  | Deadlock st' => Deadlock st'
  | AssertFailed => AssertFailed
  | Fault => Fault
  end.
Proof. reflexivity. Qed.

Lemma deref_run a st t :
  threads st !! a = Some t → deref (Some a) st = Returned t st.
Proof. intros Ht. unfold deref. by rewrite Ht. Qed.

Lemma update_run a f st t :
  threads st !! a = Some t →
  update a f st = Returned tt (set_threads (<[a := f t]> (threads st)) st).
Proof. intros Ht. unfold update. rewrite bind_run, (deref_run _ _ _ Ht). done. Qed.

Lemma MoveThreadToReadyQueue_run a st t :
  threads st !! a = Some t →
  MoveThreadToReadyQueue (Some a) st =
  Returned tt (set_ready (listOfReadyThreads st ++ [a])
                 (set_threads (<[a := set_status READY t]> (threads st)) st)).
Proof.
  intros Ht. unfold MoveThreadToReadyQueue.
  rewrite bind_run, (update_run _ _ _ _ Ht). done.
Qed.

Lemma arr_get_set_eq {A} (l l' : list A) i v :
  arr_set l i v = Some l' → arr_get l' i = Some v.
Proof.
  unfold arr_set, arr_get. case_bool_decide; [|done]. intros [= <-].
  rewrite bool_decide_true by lia. apply list_lookup_insert_eq. lia.
Qed.

Lemma arr_get_set_ne {A} (l l' : list A) i j v :
  arr_set l i v = Some l' → i ≠ j → arr_get l' j = arr_get l j.
Proof.
  unfold arr_set, arr_get. case_bool_decide; [|done]. intros [= <-] Hne.
  case_bool_decide; [|done]. apply list_lookup_insert_ne. lia.
Qed.

Lemma arr_set_in_bounds {A} (l : list A) i v :
  0 ≤ i < Z.of_nat (length l) → arr_set l i v = Some (<[Z.to_nat i := v]> l).
Proof. intros Hi. unfold arr_set. by rewrite bool_decide_true. Qed.

Lemma arr_set_negative {A} (l : list A) i v : i < 0 → arr_set l i v = None.
Proof. intros Hi. unfold arr_set. rewrite bool_decide_false; [done|lia]. Qed.

Lemma arr_get_in_bounds {A} (l : list A) i :
  0 ≤ i < Z.of_nat (length l) → is_Some (arr_get l i).
Proof.
  intros Hi. unfold arr_get. rewrite bool_decide_true by lia.
  apply lookup_lt_is_Some. lia.
Qed.

(** ** The linear scan *)

Lemma SearchChildpid_from_spec pids a n i0 :
  0 ≤ i0 → i0 + Z.of_nat n ≤ Z.of_nat (length pids) →
  ∃ r, SearchChildpid_from pids a i0 n = Some r ∧
    ((r = -1 ∧ ∀ j, i0 ≤ j < i0 + Z.of_nat n → arr_get pids j ≠ Some a) ∨
     (i0 ≤ r < i0 + Z.of_nat n ∧ arr_get pids r = Some a ∧
      ∀ j, i0 ≤ j < r → arr_get pids j ≠ Some a)).
Proof.
  revert i0. induction n as [|n IH]; intros i0 H0 Hlen; simpl.
  - eexists; split; [done|]. left. split; [done|]. intros; lia.
  - destruct (arr_get pids i0) as [p|] eqn:Hg.
    + case_bool_decide as Hp.
      * subst p. eexists; split; [done|]. right.
        split_and!; [lia|lia|done|intros; lia].
      * destruct (IH (i0 + 1)) as (r & -> & Hr); [lia|lia|].
        eexists; split; [done|].
        destruct Hr as [[-> Hall]|(Hr & Hget & Hall)].
        -- left. split; [done|]. intros j Hj.
           destruct (decide (j = i0)) as [->|].
           ++ rewrite Hg. congruence.
           ++ apply Hall. lia.
        -- right. split_and!; [lia|lia|done|]. intros j Hj.
           destruct (decide (j = i0)) as [->|].
           ++ rewrite Hg. congruence.
           ++ apply Hall. lia.
    + exfalso. unfold arr_get in Hg. rewrite bool_decide_true in Hg by lia.
      apply lookup_ge_None in Hg. lia.
Qed.

Lemma SearchChildpid_found this st t a i :
  threads st !! this = Some t →
  0 ≤ childCount t ≤ Z.of_nat (length (child_pids t)) →
  first_slot (child_pids t) (childCount t) a i →
  SearchChildpid this a st = Returned i st.
Proof.
  intros Ht Hn (Hi & Hai & Hlt). unfold SearchChildpid.
  rewrite bind_run, (deref_run _ _ _ Ht).
  destruct (SearchChildpid_from_spec (child_pids t) a
              (Z.to_nat (childCount t)) 0) as (r & Hr & Hcase); [lia|lia|].
  rewrite Hr. simpl. destruct Hcase as [[-> Hall]|(Hr0 & Hget & Hall)].
  - exfalso. apply (Hall i); [lia|done].
  - destruct (Z.lt_trichotomy r i) as [Hlt'|[->|Hgt]]; [|done|].
    + exfalso. apply (Hlt r); [lia|done].
    + exfalso. apply (Hall i); [lia|done].
Qed.

Lemma SearchChildpid_absent this st t a :
  threads st !! this = Some t →
  0 ≤ childCount t ≤ Z.of_nat (length (child_pids t)) →
  no_slot (child_pids t) (childCount t) a →
  SearchChildpid this a st = Returned (-1) st.
Proof.
  intros Ht Hn Hno. unfold SearchChildpid.
  rewrite bind_run, (deref_run _ _ _ Ht).
  destruct (SearchChildpid_from_spec (child_pids t) a
              (Z.to_nat (childCount t)) 0) as (r & Hr & Hcase); [lia|lia|].
  rewrite Hr. simpl. destruct Hcase as [[-> Hall]|(Hr0 & Hget & Hall)]; [done|].
  exfalso. apply (Hno r); [lia|done].
Qed.

(** Either the identifier has a first slot or it has none. *)
Lemma first_slot_or_none pids n a :
  0 ≤ n ≤ Z.of_nat (length pids) →
  (∃ i, first_slot pids n a i) ∨ no_slot pids n a.
Proof.
  intros Hn.
  destruct (SearchChildpid_from_spec pids a (Z.to_nat n) 0)
    as (r & _ & [[_ Hall]|(Hr & Hget & Hall)]); [lia|lia| |].
  - right. intros j Hj. apply Hall. lia.
  - left. exists r. split_and!; [lia|lia|done|done].
Qed.

(** ** Fatal integrity violations *)

(** C6.  [PutThreadToSleep] called on a thread that is not the current one,
    or while interrupts are enabled, ends in a failed assertion; so does
    the destructor (and hence [delete]) run on the current thread. *)
Theorem integrity_violations_are_fatal (this : addr) (st : State) :
  (currentThread st ≠ Some this ∨ intLevel st ≠ IntOff →
   PutThreadToSleep this st = AssertFailed) ∧
  (currentThread st = Some this →
   NachOSThread_dtor this st = AssertFailed ∧
   delete_thread (Some this) st = AssertFailed).
Proof.
  split.
  - intros Hbad. unfold PutThreadToSleep. unfold_monad.
    case_bool_decide as Hcur; [|done].
    case_bool_decide as Hlvl; [|done].
    destruct Hbad; done.
  - intros Hcur. unfold delete_thread, NachOSThread_dtor. unfold_monad.
    rewrite bool_decide_false; [done|]. intros Hne. by apply Hne.
Qed.

Lemma integrity_violations_are_fatal_witness :
  PutThreadToSleep 2%positive Demo.two_threads = AssertFailed ∧
  PutThreadToSleep 1%positive Demo.two_threads = AssertFailed ∧
  NachOSThread_dtor 1%positive Demo.two_threads = AssertFailed.
Proof.
  split_and!.
  - apply (proj1 (integrity_violations_are_fatal 2%positive Demo.two_threads)).
    left. vm_compute. discriminate.
  - apply (proj1 (integrity_violations_are_fatal 1%positive Demo.two_threads)).
    right. vm_compute. discriminate.
  - apply (proj2 (integrity_violations_are_fatal 1%positive Demo.two_threads)).
    reflexivity.
Defined.

(** ** Exit propagation *)

(** The state [SetChildExitCode] leaves behind when the scan ends on slot
    [i] of the table of [t]. *)
Lemma SetChildExitCode_run this st t childpid code i :
  threads st !! this = Some t →
  child_table_ok t →
  first_slot (child_pids t) (childCount t) childpid i →
  ∃ t' st',
    SetChildExitCode this childpid code st = Returned tt st' ∧
    threads st' !! this = Some t' ∧
    (∀ a, a ≠ this → threads st' !! a = threads st !! a) ∧
    childexitcode t' = <[Z.to_nat i := code]> (childexitcode t) ∧
    childexitstatus t' = <[Z.to_nat i := true]> (childexitstatus t) ∧
    child_pids t' = child_pids t ∧ childCount t' = childCount t ∧
    pid t' = pid t ∧ parentthread t' = parentthread t ∧
    intLevel st' = intLevel st ∧
    currentThread st' = currentThread st ∧
    threadToBeDestroyed st' = threadToBeDestroyed st ∧
    (waitchildindex t = i →
       waitchildindex t' = -1 ∧ status t' = READY ∧
       listOfReadyThreads st' = listOfReadyThreads st ++ [this]) ∧
    (waitchildindex t ≠ i →
       waitchildindex t' = waitchildindex t ∧ status t' = status t ∧
       listOfReadyThreads st' = listOfReadyThreads st).
Proof.
  intros Ht (Hn & Hc & Hs) Hslot.
  pose proof Hslot as (Hi & _ & _).
  unfold SetChildExitCode.
  rewrite bind_run, (SearchChildpid_found _ _ _ _ _ Ht Hn Hslot).
  unfold update, MoveThreadToReadyQueue, update, deref. unfold_monad. simpl.
  rewrite Ht. rewrite !arr_set_in_bounds by lia. simpl.
  rewrite Ht. simpl. rewrite lookup_insert_eq.
  case_bool_decide as Hw; simpl.
  - rewrite !lookup_insert_eq. simpl. rewrite !lookup_insert_eq.
    eexists _, _. split; [reflexivity|]. simpl.
    split; [apply lookup_insert_eq|].
    split; [intros a Ha; by rewrite !lookup_insert_ne by done|].
    split_and!; done.
  - eexists _, _. split; [reflexivity|]. simpl.
    split; [apply lookup_insert_eq|].
    split; [intros a Ha; by rewrite !lookup_insert_ne by done|].
    split_and!; done.
Qed.

(** C3.  [SetChildExitCode] finds the child's slot by the linear scan
    (the first slot below [childCount] holding the identifier), stores the
    code there and raises the slot's exited flag, leaving every other slot
    alone; the parent is appended to the ready queue, and its join index
    reset to [-1], exactly when its join index is that slot. *)
Theorem exit_propagation (this : addr) (st : State) (t : NachOSThread)
    (childpid code i : Z) :
  threads st !! this = Some t →
  child_table_ok t →
  first_slot (child_pids t) (childCount t) childpid i →
  ∃ t' st',
    SearchChildpid this childpid st = Returned i st ∧
    SetChildExitCode this childpid code st = Returned tt st' ∧
    threads st' !! this = Some t' ∧
    arr_get (childexitcode t') i = Some code ∧
    arr_get (childexitstatus t') i = Some true ∧
    (∀ j, j ≠ i →
       arr_get (childexitcode t') j = arr_get (childexitcode t) j ∧
       arr_get (childexitstatus t') j = arr_get (childexitstatus t) j) ∧
    (waitchildindex t = i ↔
       listOfReadyThreads st' = listOfReadyThreads st ++ [this]) ∧
    (waitchildindex t = i → waitchildindex t' = -1 ∧ status t' = READY) ∧
    (waitchildindex t ≠ i →
       waitchildindex t' = waitchildindex t ∧ status t' = status t ∧
       listOfReadyThreads st' = listOfReadyThreads st) ∧
    intLevel st' = intLevel st.
Proof.
  intros Ht Hok Hslot.
  destruct (SetChildExitCode_run this st t childpid code i Ht Hok Hslot)
    as (t' & st' & Hrun & Ht' & _ & Hcodes & Hflags & _ & _ & _ & _ & Hlvl
        & _ & _ & Hwait & Hnowait).
  destruct Hok as (Hn & Hc & Hs). pose proof Hslot as (Hi & _ & _).
  exists t', st'. split_and!.
  - by eapply SearchChildpid_found.
  - done.
  - done.
  - rewrite Hcodes. eapply arr_get_set_eq, arr_set_in_bounds. lia.
  - rewrite Hflags. eapply arr_get_set_eq, arr_set_in_bounds. lia.
  - intros j Hj. rewrite Hcodes, Hflags. split.
    + eapply arr_get_set_ne; [apply arr_set_in_bounds; lia|done].
    + eapply arr_get_set_ne; [apply arr_set_in_bounds; lia|done].
  - split.
    + intros Hw. by apply Hwait.
    + intros Hq. destruct (decide (waitchildindex t = i)) as [|Hne]; [done|].
      destruct (Hnowait Hne) as (_ & _ & Hsame). rewrite Hsame in Hq.
      apply (f_equal length) in Hq. rewrite length_app in Hq. simpl in Hq. lia.
  - intros Hw. by destruct (Hwait Hw) as (? & ? & _).
  - done.
  - done.
Qed.

Lemma exit_propagation_witness :
  ∃ st', SetChildExitCode 1%positive 2 7 Demo.two_threads = Returned tt st'.
Proof.
  destruct (exit_propagation 1%positive Demo.two_threads
              Demo.root_with_child 2 7 0) as (t' & st' & _ & Hrun & _).
  - reflexivity.
  - vm_compute. split_and!; [discriminate|discriminate|reflexivity|reflexivity].
  - split_and!; [lia|reflexivity|reflexivity|intros; lia].
  - by exists st'.
Defined.

(** C10.  [SetChildExitCode] performs no check of its own: on a
    well-formed child table its two writes stay inside the arrays exactly
    when the identifier is in one of the slots [0 .. childCount-1]; when it
    is in none, the scan yields [-1] and both writes fall outside. *)
Theorem SetChildExitCode_bounds (this : addr) (st : State) (t : NachOSThread)
    (childpid code : Z) :
  threads st !! this = Some t →
  child_table_ok t →
  (no_slot (child_pids t) (childCount t) childpid →
     SearchChildpid this childpid st = Returned (-1) st ∧
     arr_set (childexitcode t) (-1) code = None ∧
     arr_set (childexitstatus t) (-1) true = None ∧
     SetChildExitCode this childpid code st = Fault) ∧
  (∀ i, first_slot (child_pids t) (childCount t) childpid i →
     SearchChildpid this childpid st = Returned i st ∧
     0 ≤ i < Z.of_nat (length (childexitcode t)) ∧
     0 ≤ i < Z.of_nat (length (childexitstatus t)) ∧
     is_Some (arr_set (childexitcode t) i code) ∧
     is_Some (arr_set (childexitstatus t) i true) ∧
     ∃ st', SetChildExitCode this childpid code st = Returned tt st') ∧
  (SetChildExitCode this childpid code st ≠ Fault ↔
     ∃ i, first_slot (child_pids t) (childCount t) childpid i).
Proof.
  intros Ht Hok.
  assert (Habsent : no_slot (child_pids t) (childCount t) childpid →
            SetChildExitCode this childpid code st = Fault).
  { intros Hno. destruct Hok as (Hn & _ & _). unfold SetChildExitCode.
    rewrite bind_run, (SearchChildpid_absent _ _ _ _ Ht Hn Hno).
    rewrite bind_run, (deref_run _ _ _ Ht).
    rewrite bind_run. by rewrite arr_set_negative by lia. }
  assert (Hpresent : ∀ i, first_slot (child_pids t) (childCount t) childpid i →
            ∃ st', SetChildExitCode this childpid code st = Returned tt st').
  { intros i Hslot.
    destruct (SetChildExitCode_run this st t childpid code i Ht Hok Hslot)
      as (t' & st' & Hrun & _). by exists st'. }
  split_and!.
  - intros Hno. destruct Hok as (Hn & _ & _). split_and!.
    + by eapply SearchChildpid_absent.
    + by apply arr_set_negative.
    + by apply arr_set_negative.
    + by apply Habsent.
  - intros i Hslot. pose proof Hslot as (Hi & _ & _).
    destruct Hok as (Hn & Hc & Hs). split_and!; try lia.
    + by eapply SearchChildpid_found.
    + rewrite arr_set_in_bounds by lia. by eexists.
    + rewrite arr_set_in_bounds by lia. by eexists.
    + by apply (Hpresent i).
  - split.
    + intros Hnf. destruct Hok as (Hn & _ & _).
      destruct (first_slot_or_none (child_pids t) (childCount t) childpid Hn)
        as [Hex|Hno]; [done|]. by destruct Hnf; apply Habsent.
    + intros [i Hslot]. destruct (Hpresent i Hslot) as [st' ->]. done.
Qed.

Lemma SetChildExitCode_bounds_witness :
  SetChildExitCode 1%positive 5 7 Demo.two_threads = Fault.
Proof.
  apply (SetChildExitCode_bounds 1%positive Demo.two_threads
           Demo.root_with_child 5 7).
  - reflexivity.
  - vm_compute. split_and!; [discriminate|discriminate|reflexivity|reflexivity].
  - intros j Hj. change (0 ≤ j < 1) in Hj. assert (j = 0) as -> by lia.
    vm_compute. discriminate.
Defined.

(** ** Scheduler steps *)

Lemma sched_related_refl t : sched_related t t.
Proof. by destruct t. Qed.



Lemma sched_related_stateRestored b t : sched_related t (set_stateRestored b t).
Proof. by destruct t. Qed.

(** The bookkeeping of a process is untouched by scheduler steps. *)
Lemma sched_related_fields t t' :
  sched_related t t' →
  waitchildindex t' = waitchildindex t ∧ childexitcode t' = childexitcode t ∧
  childexitstatus t' = childexitstatus t ∧ child_pids t' = child_pids t ∧
  childCount t' = childCount t ∧ pid t' = pid t ∧
  parentthread t' = parentthread t ∧ space t' = space t.
Proof. intros ->. by destruct t. Qed.







(** ** The switch *)






(** ** The sleep loop *)







(** ** Going to sleep *)











(** ** Coming back from a switch *)

Lemma ScheduleThread_resume_run st c tc :
  currentThread st = Some c →
  threads st !! c = Some tc →
  zombie_ok st c →
  ∃ st' tc',
    ScheduleThread_resume st = Returned tt st' ∧
    threads st' !! c = Some tc' ∧ sched_related tc tc' ∧
    threadToBeDestroyed st' = None ∧
    (∀ z, threadToBeDestroyed st = Some z → threads st' !! z = None) ∧
    intLevel st' = intLevel st ∧
    currentThread st' = currentThread st ∧
    listOfReadyThreads st' = listOfReadyThreads st.
Proof.
  intros Hcur Hc Hz. unfold zombie_ok in Hz.
  unfold ScheduleThread_resume, delete_thread, NachOSThread_dtor,
    RestoreUserState, update, deref. unfold_monad. simpl.
  destruct (threadToBeDestroyed st) as [z|] eqn:Hzomb.
  - destruct Hz as [Hne [tz Htz]]. simpl.
    rewrite bool_decide_true by (rewrite Hcur; congruence). simpl.
    rewrite Htz. simpl.
    destruct (stack tz) as [sk|]; simpl; rewrite ?Htz; simpl;
      rewrite Hcur; simpl; rewrite ?lookup_delete_ne by done;
      rewrite ?lookup_insert_ne by done; rewrite Hc; simpl;
      (destruct (space tc) as [sp|]; simpl;
       rewrite ?lookup_delete_ne by done; rewrite ?lookup_insert_ne by done;
       rewrite ?Hc; simpl).
    all: eexists _, _; split; [reflexivity|]; simpl.
    all: split_and!; try done.
    all: try (rewrite lookup_insert_eq; reflexivity).
    all: try (rewrite ?lookup_delete_ne, ?lookup_insert_ne by done; exact Hc).
    all: try apply sched_related_refl.
    all: try apply sched_related_stateRestored.
    all: intros z' [= <-]; rewrite ?lookup_insert_ne by done;
      apply lookup_delete_eq.
  - simpl. rewrite Hcur. simpl. rewrite Hc. simpl.
    destruct (space tc) as [sp|]; simpl; rewrite ?Hc; simpl.
    all: eexists _, _; split; [reflexivity|]; simpl.
    all: split_and!; try done.
    all: try (rewrite lookup_insert_eq; reflexivity).
    all: try apply sched_related_refl.
    all: try apply sched_related_stateRestored.
Qed.

(** ** Yield *)



(** ** Join *)


Lemma in_frame_Deadlock {A} k (m : M A) st st' :
  m st = Deadlock st' → in_frame k m st = Deadlock st'.
Proof. intros Hrun. unfold in_frame. by rewrite Hrun. Qed.

Lemma all_alive_insert h a (t t' : NachOSThread) l :
  h !! a = Some t → all_alive h l → all_alive (<[a := t']> h) l.
Proof.
  intros Ha Hal. unfold all_alive in *. eapply Forall_impl; [exact Hal|].
  intros b [tb Hb]. destruct (decide (a = b)) as [->|Hne].
  - rewrite lookup_insert_eq. by eexists.
  - rewrite lookup_insert_ne by done. by eexists.
Qed.


(** A join on a slot whose exit is recorded returns the stored code and
    changes nothing. *)
Lemma JoinThreadWithChild_returns this st t index code :
  threads st !! this = Some t →
  arr_get (childexitstatus t) index = Some true →
  arr_get (childexitcode t) index = Some code →
  JoinThreadWithChild this index st = Returned code st.
Proof.
  intros Ht Hflag Hcode. unfold JoinThreadWithChild, deref. unfold_monad.
  rewrite Ht, Hflag. simpl. by rewrite Ht, Hcode.
Qed.



(** ** Finish *)









(** C1, at the failing input.  The root thread (pid 1, no parent), with one
    child on record that is ready to run, calls [FinishThread].  The code
    guards the halt of a parentless thread by [childexitstatus[pid]], the
    flag array of the children's slots read at the caller's own pid, where
    [SetChildExitCode] and [JoinThreadWithChild] read it at a child's slot.
    The flag is clear, so the thread is noted for destruction and put to
    sleep, and the child is switched in: the machine does not halt. *)
Lemma FinishThread_root_does_not_halt :
  currentThread Demo.two_threads = Some 1%positive ∧
  threads Demo.two_threads !! 1%positive = Some Demo.root_with_child ∧
  pid Demo.root_with_child = 1 ∧
  ppid Demo.root_with_child = 0 ∧
  parentthread Demo.root_with_child = None ∧
  (∀ st', FinishThread 1%positive Demo.two_threads ≠ Halted st') ∧
  ∃ st', FinishThread 1%positive Demo.two_threads = Switched KFinish st' ∧
         currentThread st' = Some 2%positive.
Proof.
  split_and!; try reflexivity.
  - intros st' Hrun. vm_compute in Hrun. discriminate.
  - eexists. split; vm_compute; reflexivity.
Qed.

(** ** The ready queue *)

Lemma run_queue_fifo ops st :
  all_alive (threads st) (enqueued ops) →
  ∃ rs st',
    run_queue ops st = Returned rs st' ∧
    listOfReadyThreads st ++ enqueued ops =
      dequeued rs ++ listOfReadyThreads st' ∧
    length rs = dequeue_calls ops ∧
    (∀ ops1 ops2, ops = ops1 ++ Dequeue :: ops2 →
       rs !! dequeue_calls ops1 =
         Some ((listOfReadyThreads st ++ enqueued ops1) !!
                 handed_out (dequeue_calls ops1) rs)).
Proof.
  revert st. induction ops as [|[a|] ops IH]; intros st Hal.
  - exists [], st. simpl. rewrite app_nil_r. split_and!; try done.
    intros [|] ? ?; discriminate.
  - change (enqueued (Enqueue a :: ops)) with (a :: enqueued ops) in *.
    apply Forall_cons in Hal as [[ta Hta] Hal].
    cbn [run_queue]. rewrite bind_run, (MoveThreadToReadyQueue_run _ _ _ Hta).
    destruct (IH (set_ready (listOfReadyThreads st ++ [a])
                    (set_threads (<[a:=set_status READY ta]> (threads st)) st)))
      as (rs & st' & Hrun & Heq & Hlen & Heach).
    { simpl. by eapply all_alive_insert. }
    exists rs, st'. split_and!; try done.
    + simpl in Heq. by rewrite <- Heq, <- app_assoc.
    + intros [|o ops1] ops2 Hops; [discriminate|].
      injection Hops as <- Hops.
      change (dequeue_calls (Enqueue a :: ops1)) with (dequeue_calls ops1).
      change (enqueued (Enqueue a :: ops1)) with (a :: enqueued ops1).
      rewrite (Heach ops1 ops2 Hops). simpl. by rewrite <- app_assoc.
  - change (enqueued (Dequeue :: ops)) with (enqueued ops) in *.
    cbn [run_queue]. rewrite bind_run. unfold SelectNextReadyThread.
    destruct (listOfReadyThreads st) as [|b q] eqn:Hq.
    + destruct (IH st Hal) as (rs & st' & Hrun & Heq & Hlen & Heach).
      rewrite bind_run, Hrun. exists (None :: rs), st'.
      split_and!; try done.
      * by rewrite Hq in Heq.
      * simpl. unfold dequeue_calls in *. simpl. by rewrite Hlen.
      * intros [|o ops1] ops2 Hops; [done|].
        injection Hops as <- Hops.
        change (dequeue_calls (Dequeue :: ops1)) with (S (dequeue_calls ops1)).
        change (enqueued (Dequeue :: ops1)) with (enqueued ops1).
        change (handed_out (S (dequeue_calls ops1)) (None :: rs))
          with (handed_out (dequeue_calls ops1) rs).
        change ((None :: rs) !! S (dequeue_calls ops1))
          with (rs !! dequeue_calls ops1).
        rewrite (Heach ops1 ops2 Hops). by rewrite Hq.
    + destruct (IH (set_ready q st)) as (rs & st' & Hrun & Heq & Hlen & Heach);
        [done|].
      rewrite bind_run, Hrun. exists (Some b :: rs), st'.
      split_and!; try done.
      * simpl in Heq. change (dequeued (Some b :: rs)) with (b :: dequeued rs).
        simpl. by rewrite Heq.
      * simpl. unfold dequeue_calls in *. simpl. by rewrite Hlen.
      * intros [|o ops1] ops2 Hops; [done|].
        injection Hops as <- Hops.
        change (dequeue_calls (Dequeue :: ops1)) with (S (dequeue_calls ops1)).
        change (enqueued (Dequeue :: ops1)) with (enqueued ops1).
        change (handed_out (S (dequeue_calls ops1)) (Some b :: rs))
          with (S (handed_out (dequeue_calls ops1) rs)).
        change ((Some b :: rs) !! S (dequeue_calls ops1))
          with (rs !! dequeue_calls ops1).
        by rewrite (Heach ops1 ops2 Hops).
Qed.

(** C7, as the model has it.  Started on an empty queue, whatever the
    sequence of enqueues and dequeues: every dequeue returns the oldest
    thread enqueued before it and not yet handed out, and none exactly when
    there is no such thread, so the dequeues hand the threads out in the
    exact order of their insertion; the threads handed out, followed by
    those still queued, are the threads enqueued, in that order; and the
    queue is empty at the end exactly when as many threads were handed out
    as were enqueued. *)
Theorem ready_queue_fifo (ops : list QueueOp) (st : State) :
  all_alive (threads st) (enqueued ops) →
  listOfReadyThreads st = [] →
  ∃ rs st',
    run_queue ops st = Returned rs st' ∧
    length rs = dequeue_calls ops ∧
    (∀ ops1 ops2, ops = ops1 ++ Dequeue :: ops2 →
       rs !! dequeue_calls ops1 =
         Some (enqueued ops1 !! handed_out (dequeue_calls ops1) rs)) ∧
    enqueued ops = dequeued rs ++ listOfReadyThreads st' ∧
    (listOfReadyThreads st' = [] ↔
       length (dequeued rs) = length (enqueued ops)).
Proof.
  intros Hal Hq.
  destruct (run_queue_fifo ops st Hal) as (rs & st' & Hrun & Heq & Hlen & Heach).
  rewrite Hq in Heq, Heach. simpl in Heq.
  exists rs, st'. split_and!; try done.
  rewrite Heq, length_app. split.
  - intros ->. simpl. lia.
  - intros Hl. destruct (listOfReadyThreads st'); [done|]. simpl in Hl. lia.
Qed.

Lemma ready_queue_fifo_witness :
  ∃ rs st',
    run_queue [Enqueue 2%positive; Enqueue 1%positive; Dequeue; Dequeue; Dequeue]
      Demo.root_alone = Returned rs st' ∧
    rs !! 0%nat = Some (Some 2%positive) ∧
    rs !! 1%nat = Some (Some 1%positive) ∧
    rs !! 2%nat = Some None ∧
    dequeued rs = [2%positive; 1%positive] ∧ listOfReadyThreads st' = [].
Proof.
  destruct (ready_queue_fifo
              [Enqueue 2%positive; Enqueue 1%positive; Dequeue; Dequeue; Dequeue]
              Demo.root_alone)
    as (rs & st' & Hrun & Hlen & Heach & Heq & Hempty).
  - apply Forall_cons_2; [eexists; reflexivity|].
    apply Forall_cons_2; [eexists; reflexivity|apply Forall_nil_2].
  - reflexivity.
  - exists rs, st'. split; [exact Hrun|].
    vm_compute in Hrun. injection Hrun as <- <-.
    split_and!; reflexivity.
Defined.

(** C7 as worded fails when dequeue calls are counted: a dequeue on the
    empty queue followed by an enqueue makes both counts one, and a thread
    is queued. *)
Lemma ready_queue_counts_differ :
  length (enqueued [Dequeue; Enqueue 2%positive]) =
    dequeue_calls [Dequeue; Enqueue 2%positive] ∧
  listOfReadyThreads Demo.root_alone = [] ∧
  ∃ st', run_queue [Dequeue; Enqueue 2%positive] Demo.root_alone =
           Returned [None] st' ∧
         listOfReadyThreads st' = [2%positive].
Proof.
  split_and!; try reflexivity.
  eexists. split; vm_compute; reflexivity.
Qed.

(** ** The initial stack and context *)

Lemma arr_get_insert {A} (l : list A) i j v :
  0 ≤ i < Z.of_nat (length l) →
  arr_get (<[Z.to_nat i := v]> l) j =
  if decide (i = j) then Some v else arr_get l j.
Proof.
  intros Hi. case_decide as Hij.
  - subst j. eapply arr_get_set_eq, arr_set_in_bounds. done.
  - eapply arr_get_set_ne; [by apply arr_set_in_bounds|done].
Qed.

Lemma fencepost_word : to_unsigned (wrap32 STACK_FENCEPOST) = 0xdeadbeef.
Proof. reflexivity. Qed.

Lemma set_stackTop_run this top st t :
  threads st !! this = Some t →
  set_stackTop this top st =
  Returned tt
    (set_threads (<[this := set_stack (Some top) (stack t) t]> (threads st)) st).
Proof.
  intros Ht. unfold set_stackTop.
  by rewrite bind_run, (deref_run _ _ _ Ht), (update_run _ _ _ _ Ht).
Qed.

Lemma store_stack_run this i v st t s :
  threads st !! this = Some t → stack t = Some s →
  0 ≤ i < Z.of_nat (length s) →
  store_stack this i v st =
  Returned tt
    (set_threads
       (<[this := set_stack (stackTop t) (Some (<[Z.to_nat i := v]> s)) t]>
          (threads st)) st).
Proof.
  intros Ht Hs Hi. unfold store_stack.
  rewrite bind_run, (deref_run _ _ _ Ht). rewrite bind_run, Hs.
  unfold of_option at 1, mret at 1, M_ret at 1.
  rewrite bind_run, (arr_set_in_bounds _ _ _ Hi).
  unfold of_option, mret, M_ret. by rewrite (update_run _ _ _ _ Ht).
Qed.

Lemma store_machineState_run this i v st t :
  threads st !! this = Some t →
  0 ≤ i < Z.of_nat (length (machineState t)) →
  store_machineState this i v st =
  Returned tt
    (set_threads
       (<[this := set_machineState (<[Z.to_nat i := v]> (machineState t)) t]>
          (threads st)) st).
Proof.
  intros Ht Hi. unfold store_machineState.
  rewrite bind_run, (deref_run _ _ _ Ht).
  rewrite bind_run, (arr_set_in_bounds _ _ _ Hi).
  unfold of_option, mret, M_ret. by rewrite (update_run _ _ _ _ Ht).
Qed.

Ltac heap_now :=
  cbn [threads set_threads stack stackTop machineState set_stack
       set_machineState];
  first [eassumption | apply lookup_insert_eq | reflexivity].

Ltac in_range :=
  cbn [threads set_threads stack stackTop machineState set_stack
       set_machineState];
  rewrite ?length_insert; lia.

Ltac step_stackTop :=
  rewrite ?bind_run; erewrite set_stackTop_run by heap_now;
  cbv beta iota; cbn [threads set_threads]; rewrite ?insert_insert_eq.
Ltac step_stack :=
  rewrite ?bind_run;
  erewrite store_stack_run; [|heap_now|heap_now|in_range];
  cbv beta iota; cbn [threads set_threads stack stackTop set_stack];
  rewrite ?insert_insert_eq.
Ltac step_machineState :=
  rewrite ?bind_run;
  erewrite store_machineState_run; [|heap_now|in_range];
  cbv beta iota;
  cbn [threads set_threads machineState set_machineState set_stack];
  rewrite ?insert_insert_eq.

Section CreateThreadStack.
Context `{Platform}.

Lemma fencepost_at_overflow_end : fencepost_index = overflow_end.
Proof. unfold fencepost_index, overflow_end, growth. by destruct host. Qed.

Lemma CreateThreadStack_run this st t func arg :
  platform_ok →
  threads st !! this = Some t →
  Forall (fun i => 0 ≤ i < Z.of_nat (length (machineState t))) context_slots →
  ∃ st' t' s,
    CreateThreadStack this func arg st = Returned tt st' ∧
    threads st' !! this = Some t' ∧
    stack t' = Some s ∧
    length s = Z.to_nat StackSize ∧
    arr_get s fencepost_index = Some (wrap32 STACK_FENCEPOST) ∧
    (∀ j, j ≠ fencepost_index → (host = HOST_i386 → j ≠ StackSize - 5) →
       arr_get s j = arr_get (AllocBoundedArray (StackSize * sizeof_int)) j) ∧
    machineState t' =
      <[Z.to_nat WhenDonePCState := ThreadFinish_entry]>
        (<[Z.to_nat InitialArgState := arg]>
           (<[Z.to_nat InitialPCState := func]>
              (<[Z.to_nat StartupPCState := InterruptEnable_entry]>
                 (<[Z.to_nat PCState := ThreadRoot_entry]> (machineState t))))) ∧
    (∀ a, a ≠ this → threads st' !! a = threads st !! a) ∧
    listOfReadyThreads st' = listOfReadyThreads st ∧
    currentThread st' = currentThread st.
Proof.
  intros (Hsz & Hlen & Hnd) Ht Hslots.
  unfold context_slots in Hslots.
  apply Forall_cons in Hslots as [H1 Hslots].
  apply Forall_cons in Hslots as [H2 Hslots].
  apply Forall_cons in Hslots as [H3 Hslots].
  apply Forall_cons in Hslots as [H4 Hslots].
  apply Forall_cons in Hslots as [H5 _].
  unfold CreateThreadStack, fencepost_index.
  rewrite bind_run, (deref_run _ _ _ Ht).
  rewrite bind_run, (update_run _ _ _ _ Ht).
  rewrite bind_run.
  destruct host eqn:Hhost.
  - step_stackTop. step_stack.
    do 5 step_machineState.
    eexists _, _, _. split; [reflexivity|]. cbn [threads set_threads].
    split; [apply lookup_insert_eq|]. simpl.
    split; [reflexivity|]. split; [by rewrite length_insert|].
    split_and!; try done.
    + rewrite arr_get_insert by lia. by rewrite decide_True.
    + intros j Hj _. rewrite arr_get_insert by lia. by rewrite decide_False.
    + intros a Ha. by rewrite lookup_insert_ne.
  - step_stackTop. step_stack.
    do 5 step_machineState.
    eexists _, _, _. split; [reflexivity|]. cbn [threads set_threads].
    split; [apply lookup_insert_eq|]. simpl.
    split; [reflexivity|]. split; [by rewrite length_insert|].
    split_and!; try done.
    + rewrite arr_get_insert by lia. by rewrite decide_True.
    + intros j Hj _. rewrite arr_get_insert by lia. by rewrite decide_False.
    + intros a Ha. by rewrite lookup_insert_ne.
  - step_stackTop. step_stack.
    do 5 step_machineState.
    eexists _, _, _. split; [reflexivity|]. cbn [threads set_threads].
    split; [apply lookup_insert_eq|]. simpl.
    split; [reflexivity|]. split; [by rewrite length_insert|].
    split_and!; try done.
    + rewrite arr_get_insert by lia. by rewrite decide_True.
    + intros j Hj _. rewrite arr_get_insert by lia. by rewrite decide_False.
    + intros a Ha. by rewrite lookup_insert_ne.
  - step_stackTop. step_stackTop. step_stack. step_stack.
    do 5 step_machineState.
    eexists _, _, _. split; [reflexivity|]. cbn [threads set_threads].
    split; [apply lookup_insert_eq|]. simpl.
    split; [reflexivity|]. split; [by rewrite !length_insert|].
    split_and!; try done.
    + rewrite arr_get_insert by (rewrite ?length_insert; lia).
      by rewrite decide_True.
    + intros j Hj Hj'. rewrite arr_get_insert by (rewrite ?length_insert; lia).
      rewrite decide_False by done. rewrite arr_get_insert by lia.
      rewrite decide_False; [done|]. intros <-. apply Hj'; [done|lia].
    + intros a Ha. by rewrite lookup_insert_ne.
Qed.

End CreateThreadStack.

Lemma NoDup_five (a b c d e : Z) :
  NoDup [a; b; c; d; e] →
  a ≠ b ∧ a ≠ c ∧ a ≠ d ∧ a ≠ e ∧ b ≠ c ∧ b ≠ d ∧ b ≠ e ∧
  c ≠ d ∧ c ≠ e ∧ d ≠ e.
Proof.
  intros Hnd.
  apply NoDup_cons in Hnd as [Hn1 Hnd].
  apply NoDup_cons in Hnd as [Hn2 Hnd].
  apply NoDup_cons in Hnd as [Hn3 Hnd].
  apply NoDup_cons in Hnd as [Hn4 _].
  split_and!; intros ->; set_solver.
Qed.

Section CreateThreadStackSpec.
Context `{Platform}.

Lemma CheckOverflow_passes this st t s w :
  threads st !! this = Some t → stack t = Some s →
  arr_get s fencepost_index = Some w →
  to_unsigned w = STACK_FENCEPOST →
  CheckOverflow this st = Returned tt st.
Proof.
  intros Ht Hs Hw Hf. unfold CheckOverflow.
  rewrite bind_run, (deref_run _ _ _ Ht). rewrite Hs, bind_run, Hw.
  unfold of_option, mret, M_ret, ASSERT. by rewrite bool_decide_true.
Qed.

(** C8, as the code has it.  [CreateThreadStack] gives the thread a block
    of [StackSize] words and stores the fencepost, whose bit pattern is
    [0xdeadbeef], in the word at the end of the block towards which the
    stack grows (the last word on a host whose stack grows upwards, the
    first word otherwise), so that [CheckOverflow] passes right away.  It
    fills five slots of the saved context (resume pc: [ThreadRoot];
    startup pc: [InterruptEnable]; the function; its argument; when-done
    pc: [ThreadFinish]) and no other slot. *)
Theorem CreateThreadStack_spec (this : addr) (st : State) (t : NachOSThread)
    (func arg : Z) :
  platform_ok →
  threads st !! this = Some t →
  Forall (fun i => 0 ≤ i < Z.of_nat (length (machineState t))) context_slots →
  ∃ st' t' s,
    CreateThreadStack this func arg st = Returned tt st' ∧
    threads st' !! this = Some t' ∧
    stack t' = Some s ∧
    length s = Z.to_nat StackSize ∧
    arr_get s overflow_end = Some (wrap32 STACK_FENCEPOST) ∧
    to_unsigned (wrap32 STACK_FENCEPOST) = 0xdeadbeef ∧
    CheckOverflow this st' = Returned tt st' ∧
    arr_get (machineState t') PCState = Some ThreadRoot_entry ∧
    arr_get (machineState t') StartupPCState = Some InterruptEnable_entry ∧
    arr_get (machineState t') InitialPCState = Some func ∧
    arr_get (machineState t') InitialArgState = Some arg ∧
    arr_get (machineState t') WhenDonePCState = Some ThreadFinish_entry ∧
    (∀ j, j ∉ context_slots →
       arr_get (machineState t') j = arr_get (machineState t) j).
Proof.
  intros Hok Ht Hslots.
  destruct (CreateThreadStack_run this st t func arg Hok Ht Hslots)
    as (st' & t' & s & Hrun & Ht' & Hs & Hlen & Hfence & _ & Hms & _).
  destruct Hok as (_ & _ & Hnd).
  unfold context_slots in Hslots, Hnd.
  apply Forall_cons in Hslots as [H1 Hslots].
  apply Forall_cons in Hslots as [H2 Hslots].
  apply Forall_cons in Hslots as [H3 Hslots].
  apply Forall_cons in Hslots as [H4 Hslots].
  apply Forall_cons in Hslots as [H5 _].
  destruct (NoDup_five _ _ _ _ _ Hnd)
    as (? & ? & ? & ? & ? & ? & ? & ? & ? & ?).
  exists st', t', s. rewrite <- fencepost_at_overflow_end.
  split_and!; try done.
  - by eapply CheckOverflow_passes.
  - rewrite Hms. rewrite !arr_get_insert by (rewrite ?length_insert; lia).
    rewrite !decide_False by done. by rewrite decide_True.
  - rewrite Hms. rewrite !arr_get_insert by (rewrite ?length_insert; lia).
    rewrite !decide_False by done. by rewrite decide_True.
  - rewrite Hms. rewrite !arr_get_insert by (rewrite ?length_insert; lia).
    rewrite !decide_False by done. by rewrite decide_True.
  - rewrite Hms. rewrite !arr_get_insert by (rewrite ?length_insert; lia).
    rewrite !decide_False by done. by rewrite decide_True.
  - rewrite Hms. rewrite !arr_get_insert by (rewrite ?length_insert; lia).
    by rewrite decide_True.
  - intros j Hj. unfold context_slots in Hj. rewrite !not_elem_of_cons in Hj.
    destruct Hj as (? & ? & ? & ? & ? & _).
    rewrite Hms. rewrite !arr_get_insert by (rewrite ?length_insert; lia).
    by rewrite !decide_False by done.
Qed.

End CreateThreadStackSpec.

Lemma CreateThreadStack_spec_witness :
  ∃ st',
    @CreateThreadStack Demo.mips 2%positive 100 7 Demo.two_threads =
      Returned tt st' ∧
    @CheckOverflow Demo.mips 2%positive st' = Returned tt st'.
Proof.
  destruct (@CreateThreadStack_spec Demo.mips 2%positive Demo.two_threads
              (Demo.thread "child" 2 1 (Some 1%positive) READY) 100 7)
    as (st' & t' & s & Hrun & _ & _ & _ & _ & _ & Hcheck & _).
  - split_and!; [vm_compute; discriminate|reflexivity|].
    apply (bool_decide_unpack _). reflexivity.
  - reflexivity.
  - apply (bool_decide_unpack _). reflexivity.
  - by exists st'.
Defined.

(** C8 as worded fails on the position of the fencepost: on a host whose
    stack grows downwards the word at the end opposite to the direction of
    growth, where the stack starts, is left as allocated; the fencepost is
    in the first word of the block. *)
Lemma fencepost_not_at_stack_base :
  growth (@host Demo.mips) = GrowsDown ∧
  @base_end Demo.mips = 1023 ∧
  ∃ st' t' s,
    @CreateThreadStack Demo.mips 2%positive 100 7 Demo.two_threads =
      Returned tt st' ∧
    threads st' !! 2%positive = Some t' ∧ stack t' = Some s ∧
    arr_get s (@base_end Demo.mips) = Some 0 ∧
    to_unsigned 0 ≠ STACK_FENCEPOST ∧
    arr_get s 0 = Some (wrap32 STACK_FENCEPOST).
Proof.
  split; [reflexivity|]. split; [reflexivity|].
  eexists _, _, _. split; [vm_compute; reflexivity|].
  split; [vm_compute; reflexivity|].
  split; [reflexivity|]. split; [vm_compute; reflexivity|].
  split; [vm_compute; discriminate|vm_compute; reflexivity].
Qed.

(** ** Process identifiers *)

Lemma wrap32_small z : - 2 ^ 31 ≤ z < 2 ^ 31 → wrap32 z = z.
Proof. intros Hz. unfold wrap32. rewrite Z.mod_small; lia. Qed.

Lemma wrap32_succ z : wrap32 (wrap32 z + 1) = wrap32 (z + 1).
Proof.
  unfold wrap32.
  replace ((z + 2 ^ 31) mod 2 ^ 32 - 2 ^ 31 + 1 + 2 ^ 31)
    with ((z + 2 ^ 31) mod 2 ^ 32 + 1) by lia.
  replace (z + 1 + 2 ^ 31) with ((z + 2 ^ 31) + 1) by lia.
  by rewrite Zplus_mod_idemp_l.
Qed.

Section Constructor.
Context `{Platform}.

(** The constructor that takes pid 1. *)
Lemma NachOSThread_ctor_first this n st :
  availpid st = 1 →
  ∃ t, NachOSThread_ctor this n st =
         Returned tt (set_threads (<[this := t]> (threads st))
                        (set_availpid (wrap32 2) st)) ∧
       pid t = 1 ∧ ppid t = 0 ∧ parentthread t = None ∧ name t = n ∧
       status t = JUST_CREATED ∧ waitchildindex t = -1 ∧ childCount t = 0.
Proof.
  intros Hp. unfold NachOSThread_ctor. unfold_monad. simpl.
  rewrite Hp. simpl. eexists. split; [reflexivity|]. done.
Qed.

(** Any other constructor: the parent is the current thread. *)
Lemma NachOSThread_ctor_later this n st cur tc :
  availpid st ≠ 1 →
  currentThread st = Some cur → threads st !! cur = Some tc →
  ∃ t, NachOSThread_ctor this n st =
         Returned tt (set_threads (<[this := t]> (threads st))
                        (set_availpid (wrap32 (availpid st + 1)) st)) ∧
       pid t = availpid st ∧ ppid t = pid tc ∧ parentthread t = Some cur ∧
       name t = n ∧ status t = JUST_CREATED ∧ waitchildindex t = -1 ∧
       childCount t = 0.
Proof.
  intros Hp Hcur Hc. unfold NachOSThread_ctor, deref. unfold_monad. simpl.
  rewrite bool_decide_false by done. rewrite Hcur. simpl. rewrite Hc. simpl.
  eexists. split; [reflexivity|]. done.
Qed.

(** Constructions none of which is the first: the [k]-th object gets the
    counter's value [k] increments later, wrap-around included. *)
Lemma construct_all_later cs st live p :
  availpid st = wrap32 p →
  currents_alive live false cs →
  (∀ a, a ∈ live → is_Some (threads st !! a)) →
  ∃ rs st',
    construct_all cs st = Returned rs st' ∧
    length rs = length cs ∧
    ∀ k r c, rs !! k = Some r → cs !! k = Some c →
      pid (made r) = wrap32 (p + Z.of_nat k) ∧
      (wrap32 (p + Z.of_nat k) ≠ 1 →
         parentthread (made r) = c_current c ∧
         ∃ tc, current_then r = Some tc ∧ ppid (made r) = pid tc).
Proof.
  revert st live p. induction cs as [|c cs IH]; intros st live p Hp Hal Hlive.
  - exists [], st. split_and!; try done.
  - destruct Hal as [Hc Hal]. destruct (Hc eq_refl) as (a & Hcur & Ha).
    destruct (Hlive a Ha) as [tc Htc].
    cbn [construct_all]. rewrite bind_run. unfold modify at 1.
    rewrite bind_run. unfold get at 1.
    set (st0 := set_currentThread (c_current c) st).
    assert (Hstep : ∃ t st1,
      NachOSThread_ctor (c_this c) (c_name c) st0 = Returned tt st1 ∧
      threads st1 = <[c_this c := t]> (threads st) ∧
      availpid st1 = wrap32 (p + 1) ∧
      pid t = wrap32 p ∧
      (wrap32 p ≠ 1 → parentthread t = c_current c ∧ ppid t = pid tc)).
    { destruct (decide (wrap32 p = 1)) as [Hone|Hne].
      - destruct (NachOSThread_ctor_first (c_this c) (c_name c) st0)
          as (t & Hrun & Hpid & _); [by rewrite <- Hone|].
        eexists t, _. split; [exact Hrun|]. simpl. split_and!; try done.
        + by rewrite <- wrap32_succ, Hone.
        + by rewrite Hone.
      - destruct (NachOSThread_ctor_later (c_this c) (c_name c) st0 a tc)
          as (t & Hrun & Hpid & Hppid & Hpar & _); try done.
        { simpl. by rewrite Hp. }
        eexists t, _. split; [exact Hrun|]. simpl. split_and!; try done.
        + rewrite Hp. apply wrap32_succ.
        + by rewrite Hpid.
        + intros _. by rewrite Hpar, Hcur. }
    destruct Hstep as (t & st1 & Hrun & Hth & Hav & Hpid & Hpar).
    rewrite bind_run, Hrun.
    rewrite bind_run. erewrite deref_run by (rewrite Hth; apply lookup_insert_eq).
    destruct (IH st1 (live ∪ {[c_this c]}) (p + 1) Hav Hal)
      as (rs & st' & Hrest & Hlen & Hfacts).
    { intros b Hb. rewrite Hth. destruct (decide (c_this c = b)) as [->|Hne].
      - rewrite lookup_insert_eq. by eexists.
      - rewrite lookup_insert_ne by done. apply Hlive.
        apply elem_of_union in Hb as [Hb|Hb]; [done|].
        apply elem_of_singleton in Hb. congruence. }
    rewrite bind_run, Hrest.
    eexists (_ :: rs), st'. split; [reflexivity|]. split; [simpl; by rewrite Hlen|].
    intros [|k] r c' Hr Hc'.
    + simpl in Hr, Hc'. injection Hr as <-. injection Hc' as <-. simpl.
      rewrite Z.add_0_r. split; [done|]. intros Hne.
      destruct (Hpar Hne) as [Hpa Hpp]. split; [done|].
      exists tc. split; [|done]. rewrite Hcur. simpl. done.
    + simpl in Hr, Hc'. destruct (Hfacts k r c' Hr Hc') as [Hpk Hrk].
      replace (p + Z.of_nat (S k)) with (p + 1 + Z.of_nat k) by lia. done.
Qed.

(** C9, as the code has it.  Started with [availpid = 1], a sequence of
    at most [INT_MAX] constructions, each run while [currentThread] points
    to a live object (the first one does not look at it), gives the [k]-th
    object (counting from 0) the pid [k + 1]: every pid is above all
    earlier ones.  The first object has ppid 0 and no parent; every later
    one has the current thread of its time as parent and that thread's pid
    as ppid. *)
Theorem pid_assignment (cs : list Construction) (events : list (list addr)) :
  currents_alive ∅ true cs →
  Z.of_nat (length cs) ≤ INT_MAX →
  ∃ rs st',
    construct_all cs (boot events) = Returned rs st' ∧
    length rs = length cs ∧
    (∀ k r, rs !! k = Some r → pid (made r) = Z.of_nat k + 1) ∧
    (∀ i j ri rj, (i < j)%nat → rs !! i = Some ri → rs !! j = Some rj →
       pid (made ri) < pid (made rj)) ∧
    (∀ r, rs !! 0%nat = Some r →
       pid (made r) = 1 ∧ ppid (made r) = 0 ∧ parentthread (made r) = None) ∧
    (∀ k r c, (0 < k)%nat → rs !! k = Some r → cs !! k = Some c →
       parentthread (made r) = c_current c ∧
       ∃ tc, current_then r = Some tc ∧ ppid (made r) = pid tc).
Proof.
  intros Hal Hlen. destruct cs as [|c cs].
  - exists [], (boot events). split_and!; done.
  - destruct Hal as [_ Hal]. cbn [construct_all].
    rewrite bind_run. unfold modify at 1. rewrite bind_run. unfold get at 1.
    set (st0 := set_currentThread (c_current c) (boot events)).
    destruct (NachOSThread_ctor_first (c_this c) (c_name c) st0)
      as (t & Hrun & Hpid & Hppid & Hpar & _); [done|].
    rewrite bind_run, Hrun.
    rewrite bind_run. erewrite deref_run by apply lookup_insert_eq.
    set (st1 := set_threads _ _).
    destruct (construct_all_later cs st1 (∅ ∪ {[c_this c]}) 2)
      as (rs & st' & Hrest & Hlen' & Hfacts); [done|done| |].
    { intros b Hb. apply elem_of_union in Hb as [Hb|Hb].
      - by apply not_elem_of_empty in Hb.
      - apply elem_of_singleton in Hb. subst b. simpl.
        rewrite lookup_insert_eq. by eexists. }
    rewrite bind_run, Hrest.
    assert (Hpids : ∀ k r, (mkConstructed t
              (c_current c ≫= λ a, threads st0 !! a) :: rs) !! k = Some r →
              pid (made r) = Z.of_nat k + 1).
    { intros [|k] r Hr.
      - simpl in Hr. injection Hr as <-. done.
      - simpl in Hr.
        assert (Hk : (k < length cs)%nat).
        { rewrite <- Hlen'. by eapply lookup_lt_Some. }
        destruct (lookup_lt_is_Some_2 cs k Hk) as [c' Hc'].
        destruct (Hfacts k r c' Hr Hc') as [Hpk _].
        rewrite Hpk. simpl in Hlen. unfold INT_MAX in Hlen.
        rewrite wrap32_small by lia. lia. }
    eexists (_ :: rs), st'. split; [reflexivity|].
    split; [simpl; by rewrite Hlen'|]. split_and!.
    + exact Hpids.
    + intros i j ri rj Hij Hi Hj.
      rewrite (Hpids i ri Hi), (Hpids j rj Hj). lia.
    + intros r Hr. simpl in Hr. by injection Hr as <-.
    + intros [|k] r c' Hk Hr Hc'; [lia|]. simpl in Hr, Hc'.
      assert (Hk' : (k < length cs)%nat) by by eapply lookup_lt_Some.
      destruct (Hfacts k r c' Hr Hc') as [_ Hparent].
      apply Hparent. simpl in Hlen. unfold INT_MAX in Hlen.
      rewrite wrap32_small by lia. lia.
Qed.

End Constructor.

Lemma currents_alive_replicate live a c n :
  c_current c = Some a → a ∈ live →
  currents_alive live false (replicate n c).
Proof.
  intros Hc. revert live. induction n as [|n IH]; intros live Ha; [done|].
  cbn [replicate currents_alive]. split.
  - intros _. by exists a.
  - apply IH. apply elem_of_union. by left.
Qed.

(** A first construction followed by [n] more under the same current
    thread: the last object carries the counter after [n] increments. *)
Lemma construct_all_repeat `{Platform} (c0 c : Construction) (n : nat) :
  c_current c = Some (c_this c0) →
  ∃ rs st' r0,
    construct_all (c0 :: replicate n c) (boot []) = Returned rs st' ∧
    rs !! 0%nat = Some r0 ∧ pid (made r0) = 1 ∧
    ((0 < n)%nat →
     ∃ rn, rs !! n = Some rn ∧ pid (made rn) = wrap32 (1 + Z.of_nat n)).
Proof.
  intros Hc. cbn [construct_all].
  rewrite bind_run. unfold modify at 1. rewrite bind_run. unfold get at 1.
  set (st0 := set_currentThread (c_current c0) (boot [])).
  destruct (NachOSThread_ctor_first (c_this c0) (c_name c0) st0)
    as (t & Hrun & Hpid & _); [done|].
  rewrite bind_run, Hrun.
  rewrite bind_run. erewrite deref_run by apply lookup_insert_eq.
  set (st1 := set_threads _ _).
  destruct (construct_all_later (replicate n c) st1 {[c_this c0]} 2)
    as (rs & st' & Hrest & Hlen & Hfacts); [done| | |].
  { eapply currents_alive_replicate; [exact Hc|]. by apply elem_of_singleton. }
  { intros b Hb. apply elem_of_singleton in Hb. subst b.
    unfold st1. cbn [threads set_threads]. rewrite lookup_insert_eq.
    by eexists. }
  rewrite bind_run, Hrest.
  eexists (_ :: rs), st', _. split; [reflexivity|]. split; [reflexivity|].
  split; [exact Hpid|]. intros Hn. destruct n as [|m]; [lia|].
  rewrite length_replicate in Hlen.
  destruct (lookup_lt_is_Some_2 rs m) as [rn Hrn]; [lia|].
  exists rn. split; [exact Hrn|].
  destruct (Hfacts m rn c Hrn) as [Hpk _].
  { apply lookup_replicate_2. lia. }
  rewrite Hpk. f_equal. lia.
Qed.

Lemma pid_assignment_witness :
  ∃ rs st',
    @construct_all Demo.mips
      [mkConstruction None 1%positive "main";
       mkConstruction (Some 1%positive) 2%positive "child";
       mkConstruction (Some 2%positive) 3%positive "grandchild"]
      (boot []) = Returned rs st' ∧
    (∀ k r, rs !! k = Some r → pid (made r) = Z.of_nat k + 1).
Proof.
  destruct (@pid_assignment Demo.mips
              [mkConstruction None 1%positive "main";
               mkConstruction (Some 1%positive) 2%positive "child";
               mkConstruction (Some 2%positive) 3%positive "grandchild"] [])
    as (rs & st' & Hrun & _ & Hpids & _).
  - cbn [currents_alive c_current c_this]. split_and!; try done.
    + intros _. exists 1%positive. split; [done|].
      apply elem_of_union. right. by apply elem_of_singleton.
    + intros _. exists 2%positive. split; [done|].
      apply elem_of_union. right. by apply elem_of_singleton.
  - vm_compute. discriminate.
  - by exists rs, st'.
Defined.

(** C9 as worded fails once the 32-bit counter runs over: after the root
    thread and [INT_MAX] further constructions, the last object receives
    pid [-2^31], below the pid 1 of the first. *)
Lemma pid_wraps_around :
  ∃ rs st' r0 rn,
    @construct_all Demo.mips
      (mkConstruction None 1%positive "main" ::
       replicate (Z.to_nat INT_MAX)
         (mkConstruction (Some 1%positive) 2%positive "t"))
      (boot []) = Returned rs st' ∧
    rs !! 0%nat = Some r0 ∧ rs !! Z.to_nat INT_MAX = Some rn ∧
    pid (made r0) = 1 ∧ pid (made rn) = - 2 ^ 31 ∧
    pid (made rn) < pid (made r0).
Proof.
  destruct (@construct_all_repeat Demo.mips
              (mkConstruction None 1%positive "main")
              (mkConstruction (Some 1%positive) 2%positive "t")
              (Z.to_nat INT_MAX) eq_refl)
    as (rs & st' & r0 & Hrun & Hr0 & Hp0 & Hlast).
  destruct Hlast as (rn & Hrn & Hpn).
  { apply Nat2Z.inj_lt. rewrite Z2Nat.id; [reflexivity|discriminate]. }
  rewrite Z2Nat.id in Hpn by discriminate.
  change (wrap32 (1 + INT_MAX)) with (- 2 ^ 31) in Hpn.
  exists rs, st', r0, rn. split_and!; try assumption.
  rewrite Hpn, Hp0. reflexivity.
Qed.

(** * Further properties *)

(** ** Fork *)

Lemma heap_only_bind {A B} (m : M A) (f : A → M B) :
  heap_only m → (∀ a, heap_only (f a)) → heap_only (m ≫= f).
Proof.
  intros Hm Hf st b st' Hrun. rewrite bind_run in Hrun.
  destruct (m st) as [a st1| | | | |] eqn:Hmst; try done.
  rewrite (Hf a st1 b st' Hrun). rewrite (Hm st a st1 Hmst). done.
Qed.

Lemma heap_only_mret {A} (a : A) : heap_only (mret a : M A).
Proof. intros st b st' [= <- <-]. by destruct st. Qed.

Lemma heap_only_deref p : heap_only (deref p).
Proof.
  intros st b st'. unfold deref. destruct p as [a|]; [|done].
  destruct (threads st !! a); [|done]. intros [= <- <-]. by destruct st.
Qed.

Lemma heap_only_of_option {A} (o : option A) : heap_only (of_option o).
Proof. destruct o; [apply heap_only_mret|done]. Qed.

Lemma heap_only_update a f : heap_only (update a f).
Proof.
  apply heap_only_bind; [apply heap_only_deref|]. intros t st b st'.
  unfold modify. by intros [= <- <-].
Qed.

Lemma heap_only_set_stackTop `{Platform} this top :
  heap_only (set_stackTop this top).
Proof.
  apply heap_only_bind; [apply heap_only_deref|]. intros t.
  apply heap_only_update.
Qed.

Lemma heap_only_store_stack `{Platform} this i v :
  heap_only (store_stack this i v).
Proof.
  apply heap_only_bind; [apply heap_only_deref|]. intros t.
  apply heap_only_bind; [apply heap_only_of_option|]. intros s.
  apply heap_only_bind; [apply heap_only_of_option|]. intros s'.
  apply heap_only_update.
Qed.

Lemma heap_only_store_machineState `{Platform} this i v :
  heap_only (store_machineState this i v).
Proof.
  apply heap_only_bind; [apply heap_only_deref|]. intros t.
  apply heap_only_bind; [apply heap_only_of_option|]. intros m.
  apply heap_only_update.
Qed.

Lemma heap_only_CreateThreadStack `{Platform} this func arg :
  heap_only (CreateThreadStack this func arg).
Proof.
  unfold CreateThreadStack.
  apply heap_only_bind; [apply heap_only_deref|]. intros t.
  apply heap_only_bind; [apply heap_only_update|]. intros _.
  apply heap_only_bind.
  { destruct host;
      repeat first
        [ apply heap_only_set_stackTop | apply heap_only_store_stack
        | apply heap_only_bind; [|intros _] ]. }
  intros _.
  repeat first
    [ apply heap_only_store_machineState
    | apply heap_only_bind; [|intros _] ].
Qed.

Section Fork.
Context `{Platform}.

Lemma ThreadFork_run (this : addr) (st : State) (t : NachOSThread)
    (func arg : Z) :
  platform_ok →
  threads st !! this = Some t →
  Forall (fun i => 0 ≤ i < Z.of_nat (length (machineState t))) context_slots →
  ∃ st' t',
    ThreadFork this func arg st = Returned tt st' ∧
    threads st' !! this = Some t' ∧
    status t' = READY ∧
    listOfReadyThreads st' = listOfReadyThreads st ++ [this] ∧
    intLevel st' = intLevel st ∧
    currentThread st' = currentThread st ∧
    (∀ a, a ≠ this → threads st' !! a = threads st !! a) ∧
    CheckOverflow this st' = Returned tt st' ∧
    arr_get (machineState t') InitialPCState = Some func ∧
    arr_get (machineState t') InitialArgState = Some arg.
Proof.
  intros Hok Ht Hslots.
  destruct (CreateThreadStack_run this st t func arg Hok Ht Hslots)
    as (st1 & t1 & s & Hrun & Ht1 & Hs & Hlen & Hfence & _ & Hms & Hother
        & Hq & Hcur).
  destruct Hok as (_ & _ & Hnd).
  pose proof (heap_only_CreateThreadStack this func arg st tt st1 Hrun) as Hst1.
  unfold context_slots in Hslots.
  apply Forall_cons in Hslots as [H1 Hslots].
  apply Forall_cons in Hslots as [H2 Hslots].
  apply Forall_cons in Hslots as [H3 Hslots].
  apply Forall_cons in Hslots as [H4 Hslots].
  apply Forall_cons in Hslots as [H5 _].
  destruct (NoDup_five _ _ _ _ _ Hnd)
    as (? & ? & ? & ? & ? & ? & ? & ? & ? & ?).
  unfold ThreadFork. rewrite bind_run, Hrun.
  rewrite bind_run. unfold SetLevel at 1. rewrite bind_run.
  erewrite MoveThreadToReadyQueue_run by (cbn [threads set_intLevel]; exact Ht1).
  unfold_monad. cbn [intLevel set_intLevel set_ready set_threads threads
    listOfReadyThreads currentThread].
  eexists _, _. split; [reflexivity|].
  cbn [intLevel set_intLevel set_ready set_threads threads
    listOfReadyThreads currentThread].
  split; [apply lookup_insert_eq|]. split; [done|].
  split; [by rewrite Hq|]. split; [by rewrite Hst1|].
  split; [done|]. split.
  { intros a Ha. rewrite lookup_insert_ne by done. by apply Hother. }
  split.
  { eapply CheckOverflow_passes.
    - cbn [threads]. apply lookup_insert_eq.
    - cbn [stack set_status]. exact Hs.
    - exact Hfence.
    - reflexivity. }
  cbn [machineState set_status]. rewrite Hms.
  rewrite !arr_get_insert by (rewrite ?length_insert; lia).
  split.
  - rewrite !decide_False by done. by rewrite decide_True.
  - rewrite !decide_False by done. by rewrite decide_True.
Qed.

(** [ThreadFork] builds the stack and the context of the thread, appends
    the thread to the ready queue marked [READY], and leaves the interrupt
    level, the current thread and every other thread as they were; the
    fencepost check passes on the new stack. *)
Theorem ThreadFork_spec (this : addr) (st : State) (t : NachOSThread)
    (func arg : Z) :
  platform_ok →
  threads st !! this = Some t →
  Forall (fun i => 0 ≤ i < Z.of_nat (length (machineState t))) context_slots →
  ∃ st' t',
    ThreadFork this func arg st = Returned tt st' ∧
    threads st' !! this = Some t' ∧
    status t' = READY ∧
    listOfReadyThreads st' = listOfReadyThreads st ++ [this] ∧
    intLevel st' = intLevel st ∧
    currentThread st' = currentThread st ∧
    (∀ a, a ≠ this → threads st' !! a = threads st !! a) ∧
    CheckOverflow this st' = Returned tt st' ∧
    arr_get (machineState t') InitialPCState = Some func ∧
    arr_get (machineState t') InitialArgState = Some arg.
Proof. apply ThreadFork_run. Qed.

End Fork.

Lemma ThreadFork_spec_witness :
  ∃ st',
    @ThreadFork Demo.mips 3%positive 100 7 Sample.with_new_thread =
      Returned tt st' ∧
    listOfReadyThreads st' = [2%positive; 3%positive] ∧
    intLevel st' = IntOn.
Proof.
  destruct (@ThreadFork_spec Demo.mips 3%positive Sample.with_new_thread
              (Demo.thread "new" 3 1 (Some 1%positive) JUST_CREATED) 100 7)
    as (st' & t' & Hrun & _ & _ & Hq & Hl & _).
  - split_and!; [vm_compute; discriminate|reflexivity|].
    apply (bool_decide_unpack _). reflexivity.
  - reflexivity.
  - apply (bool_decide_unpack _). reflexivity.
  - by exists st'.
Defined.

(** ** Yield, once more *)





(** ** Round robin *)





(** ** The scheduler invariant *)




Lemma two_threads_inv : sched_inv Demo.two_threads.
Proof.
  split_and!.
  - exists 1%positive, Demo.root_with_child. by split_and!.
  - intros a ta Ha Hs.
    destruct (decide (a = 1%positive)) as [->|H1]; [done|].
    destruct (decide (a = 2%positive)) as [->|H2].
    + vm_compute in Ha. injection Ha as <-. discriminate.
    + unfold Demo.two_threads in Ha. cbn [threads] in Ha.
      rewrite !lookup_insert_ne in Ha by done. done.
  - apply NoDup_singleton.
  - intros a Ha. apply list_elem_of_singleton in Ha. subst a.
    eexists. split; reflexivity.
Qed.





(** [ThreadFork] of a thread that is neither running nor queued (a thread
    just constructed, say) keeps the scheduler invariant. *)
Theorem ThreadFork_keeps_invariant `{Platform} (this : addr) (st : State)
    (t : NachOSThread) (func arg : Z) :
  platform_ok →
  sched_inv st →
  threads st !! this = Some t →
  status t = JUST_CREATED →
  Forall (fun i => 0 ≤ i < Z.of_nat (length (machineState t))) context_slots →
  ∃ st', ThreadFork this func arg st = Returned tt st' ∧ sched_inv st'.
Proof.
  intros Hok Hinv Ht Hjc Hslots.
  destruct (ThreadFork_run this st t func arg Hok Ht Hslots)
    as (st' & t' & Hfork & Ht' & Hst' & Hq' & _ & Hc' & Hother & _).
  destruct Hinv as ((c & tc & Hc & Htc & Hrun) & Honly & Hnd & Hready).
  assert (Hnc : this ≠ c) by (intros ->; congruence).
  assert (Hnq : this ∉ listOfReadyThreads st).
  { intros Hin. destruct (Hready this Hin) as (ta & Hta & Hsa). congruence. }
  exists st'. split; [done|]. split_and!.
  - exists c, tc. rewrite Hc', Hother by done. done.
  - intros a ta Hta Hra. rewrite Hc'.
    destruct (decide (a = this)) as [->|Hne]; [congruence|].
    rewrite Hother in Hta by done. by eapply Honly.
  - rewrite Hq'. apply NoDup_app. split_and!; [done| |apply NoDup_singleton].
    intros a Ha Ha'. apply list_elem_of_singleton in Ha'. by subst a.
  - intros a Ha. rewrite Hq' in Ha. apply elem_of_app in Ha as [Ha|Ha].
    + destruct (Hready a Ha) as (ta & Hta & Hsa). exists ta.
      rewrite Hother; [done|]. intros ->. done.
    + apply list_elem_of_singleton in Ha. subst a. by exists t'.
Qed.

Lemma with_new_thread_inv : sched_inv Sample.with_new_thread.
Proof.
  split_and!.
  - exists 1%positive, Demo.root_with_child. by split_and!.
  - intros a ta Ha Hs.
    destruct (decide (a = 1%positive)) as [->|H1]; [done|].
    destruct (decide (a = 2%positive)) as [->|H2].
    { vm_compute in Ha. injection Ha as <-. discriminate. }
    destruct (decide (a = 3%positive)) as [->|H3].
    { vm_compute in Ha. injection Ha as <-. discriminate. }
    unfold Sample.with_new_thread in Ha. cbn [threads] in Ha.
    rewrite !lookup_insert_ne in Ha by done. done.
  - apply NoDup_singleton.
  - intros a Ha. apply list_elem_of_singleton in Ha. subst a.
    eexists. split; reflexivity.
Qed.

Lemma ThreadFork_keeps_invariant_witness :
  ∃ st', @ThreadFork Demo.mips 3%positive 100 7 Sample.with_new_thread =
           Returned tt st' ∧ sched_inv st'.
Proof.
  apply (@ThreadFork_keeps_invariant Demo.mips 3%positive
           Sample.with_new_thread
           (Demo.thread "new" 3 1 (Some 1%positive) JUST_CREATED) 100 7).
  - split_and!; [vm_compute; discriminate|reflexivity|].
    apply (bool_decide_unpack _). reflexivity.
  - apply with_new_thread_inv.
  - reflexivity.
  - reflexivity.
  - apply (bool_decide_unpack _). reflexivity.
Defined.

(** [SetChildExitCode] keeps the scheduler invariant as long as a parent
    whose join index is the child's slot is asleep ([BLOCKED]), which is
    how [JoinThreadWithChild] leaves it. *)
Theorem SetChildExitCode_keeps_invariant (this : addr) (st : State)
    (t : NachOSThread) (childpid code i : Z) :
  sched_inv st →
  threads st !! this = Some t →
  child_table_ok t →
  first_slot (child_pids t) (childCount t) childpid i →
  (waitchildindex t = i → status t = BLOCKED) →
  ∃ st', SetChildExitCode this childpid code st = Returned tt st' ∧
         sched_inv st'.
Proof.
  intros Hinv Ht Hok Hslot Hblocked.
  destruct (SetChildExitCode_run this st t childpid code i Ht Hok Hslot)
    as (t' & st' & Hrun & Ht' & Hother & _ & _ & _ & _ & _ & _ & _ & Hc' & _
        & Hwait & Hnowait).
  destruct Hinv as ((c & tc & Hc & Htc & Hrn) & Honly & Hnd & Hready).
  exists st'. split; [done|].
  destruct (decide (waitchildindex t = i)) as [Hw|Hw].
  - destruct (Hwait Hw) as (_ & Hst' & Hq'). pose proof (Hblocked Hw) as Hb.
    assert (Hnc : this ≠ c) by (intros ->; congruence).
    assert (Hnq : this ∉ listOfReadyThreads st).
    { intros Hin. destruct (Hready this Hin) as (ta & Hta & Hsa). congruence. }
    split_and!.
    + exists c, tc. rewrite Hc', Hother by done. done.
    + intros a ta Hta Hra. rewrite Hc'.
      destruct (decide (a = this)) as [->|Hne]; [congruence|].
      rewrite Hother in Hta by done. by eapply Honly.
    + rewrite Hq'. apply NoDup_app. split_and!; [done| |apply NoDup_singleton].
      intros a Ha Ha'. apply list_elem_of_singleton in Ha'. by subst a.
    + intros a Ha. rewrite Hq' in Ha. apply elem_of_app in Ha as [Ha|Ha].
      * destruct (Hready a Ha) as (ta & Hta & Hsa). exists ta.
        rewrite Hother; [done|]. intros ->. done.
      * apply list_elem_of_singleton in Ha. subst a. by exists t'.
  - destruct (Hnowait Hw) as (_ & Hst' & Hq').
    assert (Hsame : ∀ a ta, threads st !! a = Some ta →
              ∃ ta', threads st' !! a = Some ta' ∧ status ta' = status ta).
    { intros a ta Hta. destruct (decide (a = this)) as [->|Hne].
      - exists t'. split; [done|]. congruence.
      - exists ta. by rewrite Hother. }
    assert (Hback : ∀ a ta', threads st' !! a = Some ta' →
              ∃ ta, threads st !! a = Some ta ∧ status ta' = status ta).
    { intros a ta' Hta'. destruct (decide (a = this)) as [->|Hne].
      - exists t. split; [done|]. congruence.
      - exists ta'. by rewrite <- Hother. }
    split_and!.
    + destruct (Hsame c tc Htc) as (tc' & Htc' & Hs). exists c, tc'.
      rewrite Hc'. split_and!; congruence.
    + intros a ta' Hta' Hra. rewrite Hc'.
      destruct (Hback a ta' Hta') as (ta & Hta & Hs).
      apply (Honly a ta Hta). congruence.
    + by rewrite Hq'.
    + intros a Ha. rewrite Hq' in Ha.
      destruct (Hready a Ha) as (ta & Hta & Hsa).
      destruct (Hsame a ta Hta) as (ta' & Hta' & Hs).
      exists ta'. split; [done|]. congruence.
Qed.

Lemma SetChildExitCode_keeps_invariant_witness :
  ∃ st', SetChildExitCode 1%positive 2 7 Demo.two_threads = Returned tt st' ∧
         sched_inv st'.
Proof.
  apply (SetChildExitCode_keeps_invariant 1%positive Demo.two_threads
           Demo.root_with_child 2 7 0).
  - apply two_threads_inv.
  - reflexivity.
  - vm_compute. split_and!; [discriminate|discriminate|reflexivity|reflexivity].
  - split_and!; [lia|reflexivity|reflexivity|intros; lia].
  - discriminate.
Defined.

(** ** The fencepost check *)

Section Overflow.
Context `{Platform}.

(** On a thread whose fencepost is intact, a write into the stack block is
    caught by [CheckOverflow] exactly when it hits the fencepost word and
    changes its bit pattern; a write anywhere else in the block goes
    unnoticed. *)
Theorem CheckOverflow_after_store (this : addr) (st : State)
    (t : NachOSThread) (s : list Z) (j v : Z) :
  threads st !! this = Some t →
  stack t = Some s →
  0 ≤ j < Z.of_nat (length s) →
  CheckOverflow this st = Returned tt st →
  ∃ st',
    store_stack this j v st = Returned tt st' ∧
    (j ≠ fencepost_index ∨ to_unsigned v = STACK_FENCEPOST →
       CheckOverflow this st' = Returned tt st') ∧
    (j = fencepost_index → to_unsigned v ≠ STACK_FENCEPOST →
       CheckOverflow this st' = AssertFailed).
Proof.
  intros Ht Hs Hj Hcheck.
  assert (Hfence : ∃ w, arr_get s fencepost_index = Some w ∧
                        to_unsigned w = STACK_FENCEPOST).
  { unfold CheckOverflow in Hcheck.
    rewrite bind_run, (deref_run _ _ _ Ht), Hs, bind_run in Hcheck.
    destruct (arr_get s fencepost_index) as [w|]; [|done].
    exists w. split; [done|]. unfold of_option, mret, M_ret, ASSERT in Hcheck.
    by case_bool_decide. }
  destruct Hfence as (w & Hw & Hwf).
  rewrite (store_stack_run this j v st t s Ht Hs Hj).
  eexists. split; [reflexivity|].
  set (st' := set_threads _ st).
  assert (Ht' : threads st' !! this =
                  Some (set_stack (stackTop t) (Some (<[Z.to_nat j := v]> s)) t)).
  { apply lookup_insert_eq. }
  assert (Hrun : CheckOverflow this st' =
    (w' ← of_option (arr_get (<[Z.to_nat j := v]> s) fencepost_index);
     ASSERT (bool_decide (to_unsigned w' = STACK_FENCEPOST))) st').
  { unfold CheckOverflow. by rewrite bind_run, (deref_run _ _ _ Ht'). }
  rewrite Hrun, bind_run, arr_get_insert by done. split.
  - intros Hcase. case_decide as Hjf.
    + destruct Hcase as [Hne|Hv]; [done|].
      unfold of_option, mret, M_ret, ASSERT. by rewrite bool_decide_true.
    + rewrite Hw. unfold of_option, mret, M_ret, ASSERT.
      by rewrite bool_decide_true.
  - intros Hjf Hv. rewrite decide_True by done.
    unfold of_option, mret, M_ret, ASSERT. by rewrite bool_decide_false.
Qed.

End Overflow.

Lemma CheckOverflow_after_store_witness :
  ∃ st1 st2,
    @CreateThreadStack Demo.mips 2%positive 100 7 Demo.two_threads =
      Returned tt st1 ∧
    store_stack 2%positive 0 0 st1 = Returned tt st2 ∧
    @CheckOverflow Demo.mips 2%positive st2 = AssertFailed.
Proof.
  destruct (@CreateThreadStack_run Demo.mips 2%positive Demo.two_threads
              (Demo.thread "child" 2 1 (Some 1%positive) READY) 100 7)
    as (st1 & t1 & s & Hrun & Ht1 & Hs & Hlen & Hfence & _).
  { split_and!; [vm_compute; discriminate|reflexivity|].
    apply (bool_decide_unpack _). reflexivity. }
  { reflexivity. }
  { apply (bool_decide_unpack _). reflexivity. }
  destruct (@CheckOverflow_after_store Demo.mips 2%positive st1 t1 s 0 0)
    as (st2 & Hstore & _ & Hcaught).
  - exact Ht1.
  - exact Hs.
  - rewrite Hlen. vm_compute. split; [discriminate|reflexivity].
  - eapply (@CheckOverflow_passes Demo.mips); [exact Ht1|exact Hs|exact Hfence|].
    reflexivity.
  - exists st1, st2. split_and!; [done|done|].
    apply Hcaught; [reflexivity|vm_compute; discriminate].
Defined.

(** ** Destruction *)

(** [delete] of a live thread other than the current one takes the object
    off the heap and touches nothing else: the other threads, the ready
    queue and the pending-destruction slot are as before, so a thread that
    was still queued leaves a dangling pointer in the queue. *)
Theorem delete_thread_spec (z : addr) (st : State) (tz : NachOSThread) :
  threads st !! z = Some tz →
  currentThread st ≠ Some z →
  ∃ st',
    delete_thread (Some z) st = Returned tt st' ∧
    threads st' !! z = None ∧
    (∀ a, a ≠ z → threads st' !! a = threads st !! a) ∧
    listOfReadyThreads st' = listOfReadyThreads st ∧
    currentThread st' = currentThread st ∧
    threadToBeDestroyed st' = threadToBeDestroyed st ∧
    (z ∈ listOfReadyThreads st →
       ¬ all_alive (threads st') (listOfReadyThreads st')).
Proof.
  intros Hz Hcur.
  unfold delete_thread, NachOSThread_dtor, update, deref. unfold_monad.
  rewrite bool_decide_true by congruence. simpl. rewrite Hz.
  destruct (stack tz) as [s|]; simpl; rewrite ?Hz; simpl.
  all: eexists; split; [reflexivity|]; simpl.
  all: split_and!; try done.
  all: try (rewrite ?lookup_delete_eq; done).
  all: try (intros a Ha; rewrite lookup_delete_ne by done;
            rewrite ?lookup_insert_ne by done; done).
  all: intros Hin Hal; unfold all_alive in Hal;
    rewrite Forall_forall in Hal; destruct (Hal z Hin) as [tz' Htz'];
    by rewrite lookup_delete_eq in Htz'.
Qed.

Lemma delete_thread_spec_witness :
  ∃ st', delete_thread (Some 2%positive) Demo.two_threads = Returned tt st' ∧
         threads st' !! 2%positive = None ∧
         listOfReadyThreads st' = [2%positive].
Proof.
  destruct (delete_thread_spec 2%positive Demo.two_threads
              (Demo.thread "child" 2 1 (Some 1%positive) READY))
    as (st' & Hrun & Hgone & _ & Hq & _).
  - reflexivity.
  - discriminate.
  - by exists st'.
Defined.

(** ** Starting a forked process *)

(** [context], before it enters the user program: a thread pending
    destruction (alive and not the current one) is destroyed and the slot
    cleared; the current thread, if it owns an address space, has its user
    registers marked restored; the ready queue and the current-thread
    pointer are untouched.  If the pending thread is the current one, the
    destructor's assertion fails instead. *)
Theorem context_before_Run_spec (st : State) (c : addr) (tc : NachOSThread) :
  currentThread st = Some c →
  threads st !! c = Some tc →
  (zombie_ok st c →
     ∃ st' tc',
       context_before_Run st = Returned tt st' ∧
       threadToBeDestroyed st' = None ∧
       (∀ z, threadToBeDestroyed st = Some z → threads st' !! z = None) ∧
       threads st' !! c = Some tc' ∧
       (space tc ≠ None → stateRestored tc' = true) ∧
       (space tc = None → tc' = tc) ∧
       listOfReadyThreads st' = listOfReadyThreads st ∧
       currentThread st' = Some c) ∧
  (threadToBeDestroyed st = Some c → context_before_Run st = AssertFailed).
Proof.
  intros Hcur Hc. split.
  - intros Hz.
    change context_before_Run with ScheduleThread_resume.
    unfold zombie_ok in Hz.
    unfold ScheduleThread_resume, delete_thread, NachOSThread_dtor,
      RestoreUserState, update, deref. unfold_monad. simpl.
    destruct (threadToBeDestroyed st) as [z|] eqn:Hzomb.
    + destruct Hz as [Hne [tz Htz]]. simpl.
      rewrite bool_decide_true by (rewrite Hcur; congruence). simpl.
      rewrite Htz. simpl.
      destruct (stack tz) as [sk|]; simpl; rewrite ?Htz; simpl;
        rewrite Hcur; simpl; rewrite ?lookup_delete_ne by done;
        rewrite ?lookup_insert_ne by done; rewrite Hc; simpl;
        (destruct (space tc) as [sp|] eqn:Hsp; simpl;
         rewrite ?lookup_delete_ne by done; rewrite ?lookup_insert_ne by done;
         rewrite ?Hc; simpl).
      all: eexists _, _; split; [reflexivity|]; simpl.
      all: split; [done|].
      all: split; [intros z' [= <-]; rewrite ?lookup_insert_ne by done;
                   apply lookup_delete_eq|].
      all: split;
        [first [apply lookup_insert_eq
               |rewrite ?lookup_delete_ne, ?lookup_insert_ne by done; exact Hc]|].
      all: split_and!; done.
    + simpl. rewrite Hcur. simpl. rewrite Hc. simpl.
      destruct (space tc) as [sp|] eqn:Hsp; simpl; rewrite ?Hc; simpl.
      all: eexists _, _; split; [reflexivity|]; simpl.
      all: split; [done|]. all: split; [done|].
      all: split; [first [apply lookup_insert_eq|exact Hc]|].
      all: split_and!; done.
  - intros Hz. unfold context_before_Run, delete_thread, NachOSThread_dtor.
    unfold_monad. rewrite Hz. simpl.
    rewrite bool_decide_false; [done|]. intros Hne. apply Hne. by rewrite Hcur.
Qed.

Lemma context_before_Run_spec_witness :
  context_before_Run
    (set_threadToBeDestroyed (Some 1%positive) Demo.two_threads) = AssertFailed.
Proof.
  apply (context_before_Run_spec
           (set_threadToBeDestroyed (Some 1%positive) Demo.two_threads)
           1%positive Demo.root_with_child); reflexivity.
Defined.

(** ** User registers *)

Lemma copy_registers_run src dst i n :
  0 ≤ i →
  i + Z.of_nat n ≤ Z.of_nat (length src) →
  i + Z.of_nat n ≤ Z.of_nat (length dst) →
  ∃ dst',
    copy_registers src dst i n = Some dst' ∧
    length dst' = length dst ∧
    ∀ j, arr_get dst' j =
         if bool_decide (i ≤ j < i + Z.of_nat n) then arr_get src j
         else arr_get dst j.
Proof.
  revert dst i. induction n as [|n IH]; intros dst i Hi Hsrc Hdst.
  - exists dst. split_and!; try done. intros j.
    rewrite bool_decide_false by lia. done.
  - cbn [copy_registers].
    destruct (arr_get_in_bounds src i) as [r Hr]; [lia|]. rewrite Hr.
    rewrite arr_set_in_bounds by lia.
    destruct (IH (<[Z.to_nat i := r]> dst) (i + 1)) as (dst' & Hrun & Hlen & Hget);
      [lia|lia|rewrite length_insert; lia|].
    exists dst'. split; [done|]. split; [by rewrite Hlen, length_insert|].
    intros j. rewrite Hget. rewrite arr_get_insert by lia.
    destruct (decide (i = j)) as [->|Hne].
    + rewrite bool_decide_false by lia. rewrite bool_decide_true by lia. done.
    + case_bool_decide; case_bool_decide; try lia; done.
Qed.

(** Saving the user registers and restoring them later is a round trip on
    the first [NumTotalRegs] machine registers, whatever another thread did
    to the register file in between; a second save without a restore in
    between keeps the first snapshot. *)
Theorem user_registers_round_trip (NumTotalRegs : Z) (machine : list Z)
    (u : UserRegs) :
  restored u = true →
  0 ≤ NumTotalRegs ≤ Z.of_nat (length machine) →
  NumTotalRegs ≤ Z.of_nat (length (userRegisters u)) →
  ∃ u1,
    SaveUserState_registers NumTotalRegs machine u = Some u1 ∧
    restored u1 = false ∧
    (∀ j, 0 ≤ j < NumTotalRegs →
       arr_get (userRegisters u1) j = arr_get machine j) ∧
    (∀ machine2, SaveUserState_registers NumTotalRegs machine2 u1 = Some u1) ∧
    (∀ machine2, length machine2 = length machine →
       ∃ machine3 u3,
         RestoreUserState_registers NumTotalRegs machine2 u1 =
           Some (machine3, u3) ∧
         restored u3 = true ∧
         userRegisters u3 = userRegisters u1 ∧
         (∀ j, 0 ≤ j < NumTotalRegs → arr_get machine3 j = arr_get machine j) ∧
         (∀ j, ¬ 0 ≤ j < NumTotalRegs →
            arr_get machine3 j = arr_get machine2 j)).
Proof.
  intros Hres HN Hu.
  destruct (copy_registers_run machine (userRegisters u) 0
              (Z.to_nat NumTotalRegs))
    as (regs & Hcopy & Hlen & Hget); [lia|lia|lia|].
  exists (mkUserRegs regs false).
  unfold SaveUserState_registers. rewrite Hres, Hcopy. split_and!; try done.
  - intros j Hj. cbn [userRegisters]. rewrite Hget.
    by rewrite bool_decide_true by lia.
  - intros machine2 Hlen2. unfold RestoreUserState_registers.
    cbn [userRegisters].
    destruct (copy_registers_run regs machine2 0 (Z.to_nat NumTotalRegs))
      as (machine3 & Hcopy3 & Hlen3 & Hget3); [lia|lia|lia|].
    rewrite Hcopy3. eexists _, _. split; [reflexivity|].
    split_and!; try done.
    + intros j Hj. rewrite Hget3. rewrite bool_decide_true by lia.
      rewrite Hget. by rewrite bool_decide_true by lia.
    + intros j Hj. rewrite Hget3. by rewrite bool_decide_false by lia.
Qed.

Lemma user_registers_round_trip_witness :
  ∃ u1,
    SaveUserState_registers 3 [11; 22; 33; 44] (mkUserRegs [0; 0; 0] true) =
      Some u1 ∧
    ∃ m3 u3,
      RestoreUserState_registers 3 [5; 6; 7; 8] u1 = Some (m3, u3) ∧
      arr_get m3 1 = Some 22.
Proof.
  destruct (user_registers_round_trip 3 [11; 22; 33; 44]
              (mkUserRegs [0; 0; 0] true))
    as (u1 & Hsave & _ & _ & _ & Hrestore).
  - reflexivity.
  - simpl. lia.
  - simpl. lia.
  - exists u1. split; [done|].
    destruct (Hrestore [5; 6; 7; 8]) as (m3 & u3 & Hr & _ & _ & Hsame & _);
      [reflexivity|].
    exists m3, u3. split; [done|]. rewrite Hsame by lia. reflexivity.
Defined.

(** ** Exit codes *)

Lemma child_table_ok_after (t t' : NachOSThread) i code :
  child_table_ok t →
  child_pids t' = child_pids t → childCount t' = childCount t →
  childexitcode t' = <[Z.to_nat i := code]> (childexitcode t) →
  childexitstatus t' = <[Z.to_nat i := true]> (childexitstatus t) →
  child_table_ok t'.
Proof.
  intros (Hn & Hc & Hs) Hp Hcc Hcode Hflag. unfold child_table_ok.
  rewrite Hp, Hcc, Hcode, Hflag, !length_insert. done.
Qed.

(** Recording a child's exit twice: the second code replaces the first,
    and the parent is put on the ready queue at most once, by the first
    call, and only if it was joining that child. *)
Theorem SetChildExitCode_twice (this : addr) (st : State) (t : NachOSThread)
    (childpid code1 code2 i : Z) :
  threads st !! this = Some t →
  child_table_ok t →
  first_slot (child_pids t) (childCount t) childpid i →
  ∃ st2 t2,
    (SetChildExitCode this childpid code1;;
     SetChildExitCode this childpid code2) st = Returned tt st2 ∧
    threads st2 !! this = Some t2 ∧
    arr_get (childexitcode t2) i = Some code2 ∧
    arr_get (childexitstatus t2) i = Some true ∧
    listOfReadyThreads st2 =
      listOfReadyThreads st ++
        (if bool_decide (waitchildindex t = i) then [this] else []).
Proof.
  intros Ht Hok Hslot. pose proof Hslot as (Hi & _ & _).
  destruct (SetChildExitCode_run this st t childpid code1 i Ht Hok Hslot)
    as (t1 & st1 & Hrun1 & Ht1 & _ & Hc1 & Hf1 & Hp1 & Hcc1 & _ & _ & _ & _ & _
        & Hwait1 & Hnowait1).
  pose proof (child_table_ok_after t t1 i code1 Hok Hp1 Hcc1 Hc1 Hf1) as Hok1.
  assert (Hslot1 : first_slot (child_pids t1) (childCount t1) childpid i)
    by by rewrite Hp1, Hcc1.
  destruct (SetChildExitCode_run this st1 t1 childpid code2 i Ht1 Hok1 Hslot1)
    as (t2 & st2 & Hrun2 & Ht2 & _ & Hc2 & Hf2 & _ & _ & _ & _ & _ & _ & _
        & _ & Hnowait2).
  assert (Hw1 : waitchildindex t1 ≠ i).
  { destruct (decide (waitchildindex t = i)) as [Hw|Hw].
    - destruct (Hwait1 Hw) as (-> & _). lia.
    - destruct (Hnowait1 Hw) as (-> & _). done. }
  destruct (Hnowait2 Hw1) as (_ & _ & Hq2).
  destruct Hok1 as (Hn1 & Hlc1 & Hls1).
  exists st2, t2. rewrite bind_run, Hrun1. split_and!; try done.
  - rewrite Hc2. eapply arr_get_set_eq, arr_set_in_bounds. lia.
  - rewrite Hf2. eapply arr_get_set_eq, arr_set_in_bounds. lia.
  - rewrite Hq2. case_bool_decide as Hw.
    + by destruct (Hwait1 Hw) as (_ & _ & ->).
    + destruct (Hnowait1 Hw) as (_ & _ & ->). by rewrite app_nil_r.
Qed.

Lemma SetChildExitCode_twice_witness :
  ∃ st2 t2,
    (SetChildExitCode 1%positive 2 7;; SetChildExitCode 1%positive 2 9)
      Demo.two_threads = Returned tt st2 ∧
    threads st2 !! 1%positive = Some t2 ∧
    arr_get (childexitcode t2) 0 = Some 9.
Proof.
  destruct (SetChildExitCode_twice 1%positive Demo.two_threads
              Demo.root_with_child 2 7 9 0)
    as (st2 & t2 & Hrun & Ht2 & Hcode & _).
  - reflexivity.
  - vm_compute. split_and!; [discriminate|discriminate|reflexivity|reflexivity].
  - split_and!; [lia|reflexivity|reflexivity|intros; lia].
  - by exists st2, t2.
Defined.

(** A child's exit recorded before the parent joins: the join returns the
    recorded code at once, without sleeping and without touching the
    state. *)
Theorem exit_then_join (this : addr) (st : State) (t : NachOSThread)
    (childpid code i : Z) :
  threads st !! this = Some t →
  child_table_ok t →
  first_slot (child_pids t) (childCount t) childpid i →
  ∃ st',
    SetChildExitCode this childpid code st = Returned tt st' ∧
    JoinThreadWithChild this i st' = Returned code st'.
Proof.
  intros Ht Hok Hslot. pose proof Hslot as (Hi & _ & _).
  destruct (SetChildExitCode_run this st t childpid code i Ht Hok Hslot)
    as (t' & st' & Hrun & Ht' & _ & Hc & Hf & _).
  destruct Hok as (Hn & Hlc & Hls).
  exists st'. split; [done|].
  eapply JoinThreadWithChild_returns; [exact Ht'|..].
  - rewrite Hf. eapply arr_get_set_eq, arr_set_in_bounds. lia.
  - rewrite Hc. eapply arr_get_set_eq, arr_set_in_bounds. lia.
Qed.

Lemma exit_then_join_witness :
  ∃ st',
    SetChildExitCode 1%positive 2 7 Demo.two_threads = Returned tt st' ∧
    JoinThreadWithChild 1%positive 0 st' = Returned 7 st'.
Proof.
  apply (exit_then_join 1%positive Demo.two_threads Demo.root_with_child 2 7 0).
  - reflexivity.
  - vm_compute. split_and!; [discriminate|discriminate|reflexivity|reflexivity].
  - split_and!; [lia|reflexivity|reflexivity|intros; lia].
Defined.

(** ** Join and exit together *)




(** A sleeper in [JoinThreadWithChild] that is switched back in although
    the child's exit was never recorded (something else put it on the ready
    queue) does not go back to sleep: the join returns whatever the slot
    holds, the exited flag is still clear and the join index is still
    set. *)
Theorem join_resumed_without_exit (this : addr) (index : Z)
    (oldLevel : IntStatus) (st : State) (t : NachOSThread) (w : Z) :
  currentThread st = Some this →
  threads st !! this = Some t →
  zombie_ok st this →
  arr_get (childexitstatus t) index = Some false →
  arr_get (childexitcode t) index = Some w →
  waitchildindex t = index →
  ∃ st' t',
    JoinThreadWithChild_resume this index oldLevel st = Returned w st' ∧
    threads st' !! this = Some t' ∧
    arr_get (childexitstatus t') index = Some false ∧
    waitchildindex t' = index.
Proof.
  intros Hcur Ht Hz Hflag Hcode Hw.
  unfold JoinThreadWithChild_resume, PutThreadToSleep_resume.
  destruct (ScheduleThread_resume_run st this t Hcur Ht Hz)
    as (st1 & t1 & Hrun & Ht1 & Hr1 & _).
  destruct (sched_related_fields _ _ Hr1) as (Hw1 & Hc1 & Hf1 & _).
  rewrite bind_run, Hrun. rewrite bind_run. unfold SetLevel at 1.
  rewrite bind_run. erewrite deref_run by (simpl; exact Ht1).
  rewrite Hc1, Hcode. eexists _, t1. split; [reflexivity|].
  simpl. split_and!; try done; congruence.
Qed.

Lemma join_resumed_without_exit_witness :
  ∃ st',
    JoinThreadWithChild_resume 1%positive 0 IntOn Sample.root_resumed =
      Returned 0 st'.
Proof.
  destruct (join_resumed_without_exit 1%positive 0 IntOn Sample.root_resumed
              (set_waitchildindex 0 Demo.root_with_child) 0)
    as (st' & t' & Hrun & _); try reflexivity.
  by exists st'.
Defined.

(** ** Deferred destruction *)



(** ** Construction and the invariant *)

Section CtorInvariant.
Context `{Platform}.

(** Under the scheduler invariant the constructor always succeeds; built
    at a fresh address, it adds a [JUST_CREATED] thread without children,
    not joining, leaves every other thread, the ready queue and the current
    thread alone, and keeps the invariant. *)
Theorem NachOSThread_ctor_keeps_invariant (this : addr) (n : string)
    (st : State) :
  sched_inv st →
  threads st !! this = None →
  ∃ st' t,
    NachOSThread_ctor this n st = Returned tt st' ∧
    threads st' !! this = Some t ∧
    status t = JUST_CREATED ∧ childCount t = 0 ∧ waitchildindex t = -1 ∧
    pid t = availpid st ∧
    (∀ a, a ≠ this → threads st' !! a = threads st !! a) ∧
    listOfReadyThreads st' = listOfReadyThreads st ∧
    currentThread st' = currentThread st ∧
    sched_inv st'.
Proof.
  intros Hinv Hfresh.
  pose proof Hinv as ((c & tc & Hc & Htc & Hrun) & Honly & Hnd & Hready).
  assert (Hstep : ∃ t,
    NachOSThread_ctor this n st =
      Returned tt (set_threads (<[this := t]> (threads st))
                     (set_availpid (wrap32 (availpid st + 1)) st)) ∧
    pid t = availpid st ∧ status t = JUST_CREATED ∧ waitchildindex t = -1 ∧
    childCount t = 0).
  { destruct (decide (availpid st = 1)) as [Hone|Hne].
    - destruct (NachOSThread_ctor_first this n st Hone)
        as (t & Hctor & Hpid & _ & _ & _ & Hs & Hw & Hcc).
      exists t. rewrite Hone. split_and!; try done.
    - destruct (NachOSThread_ctor_later this n st c tc Hne Hc Htc)
        as (t & Hctor & Hpid & _ & _ & _ & Hs & Hw & Hcc).
      by exists t. }
  destruct Hstep as (t & Hctor & Hpid & Hs & Hw & Hcc).
  assert (Hnc : this ≠ c) by (intros ->; congruence).
  eexists _, t. split; [exact Hctor|]. cbn [threads set_threads
    listOfReadyThreads currentThread set_availpid].
  split; [apply lookup_insert_eq|]. split_and!; try done.
  - intros a Ha. by rewrite lookup_insert_ne.
  - split_and!; cbn [threads set_threads listOfReadyThreads currentThread
      set_availpid].
    + exists c, tc. rewrite lookup_insert_ne by done. done.
    + intros a ta Hta Hra. destruct (decide (a = this)) as [->|Hne].
      * rewrite lookup_insert_eq in Hta. injection Hta as <-. congruence.
      * rewrite lookup_insert_ne in Hta by done. by eapply Honly.
    + done.
    + intros a Ha. destruct (Hready a Ha) as (ta & Hta & Hsa). exists ta.
      rewrite lookup_insert_ne; [done|]. intros ->. congruence.
Qed.

End CtorInvariant.

Lemma NachOSThread_ctor_keeps_invariant_witness :
  ∃ st', @NachOSThread_ctor Demo.mips 5%positive "t" Demo.two_threads =
           Returned tt st' ∧ sched_inv st'.
Proof.
  destruct (@NachOSThread_ctor_keeps_invariant Demo.mips 5%positive "t"
              Demo.two_threads) as (st' & t & Hrun & _ & _ & _ & _ & _ & _ & _
                                    & _ & Hinv).
  - apply two_threads_inv.
  - reflexivity.
  - by exists st'.
Defined.

(** ** Finishing with the flag set *)



